(** * stackplus: the polygon core ([polygons.py])

  A shallow embedding of the four geometry operations of [polygons.py]
  ([get], [extrude], [spacialTransform], [andPolygons]) and of the private
  helper [__forceCCW], together with the properties the specification
  states about them.

  Coordinates are Python floats in the program.  They are idealised here
  as canonical rationals ([Qc]): exact arithmetic with decidable equality
  and order, so every definition below still evaluates on concrete input.

  [polygons.py] is a thin layer over the shapely library.  The parts of
  shapely whose behaviour is fixed by its documentation (the coordinate
  constructors, coordinate access, [reverse], [area], [geoms],
  [isinstance]) are written out in [Module Shapely].  The parts that are
  whole algorithms of the underlying GEOS library ([is_ccw],
  [intersection], [convex_hull], [equals]) are taken as parameters of the
  program: every theorem holds for any implementation of them, and where
  a theorem needs a fact about one of them it says so as a hypothesis. *)

From Stdlib Require Import ZArith QArith Qcanon List Lia Lqa.
From stdpp Require Import base numbers list strings gmap.

Open Scope Qc_scope.

(** ** The shapely data model *)

Module Shapely.

(** A 2D coordinate pair, one row of [shapely.get_coordinates]. *)
Definition point : Type := Qc * Qc.

(** The exceptions that can leave the modelled functions. *)
Inductive exn : Type :=
| KeyError        (* dict lookup of an absent key *)
| ValueError      (* shapely constructor refusing its coordinates *)
| GEOSException.  (* raised inside a GEOS algorithm *)

Inductive result (A : Type) : Type :=
| Ok (a : A)
| Raise (e : exn).
Global Arguments Ok {A} a.
Global Arguments Raise {A} e.

Definition bind {A B} (r : result A) (k : A -> result B) : result B :=
  match r with
  | Ok a => k a
  | Raise e => Raise e
  end.

(** [shapely.Polygon].  The program only ever builds polygons from a shell
    (the catalog rings, transformed rings, pieces of an intersection of
    such polygons), so a polygon is its exterior ring: the coordinate
    sequence of [polygon.exterior], closing coordinate included.
    [POLYGON EMPTY] is the polygon whose ring has no coordinates. *)
Record Polygon : Type := mkPolygon { exterior : list point }.

(** [shapely.Polygon()] *)
Definition Polygon_empty : Polygon := mkPolygon [].

Definition is_empty (p : Polygon) : bool :=
  match exterior p with [] => true | _ => false end.

(** The geometry classes an overlay of two polygons can return. *)
#[warnings="-register-all"]
Inductive Geometry : Type :=
| GPoint (c : option point)
| GLineString (cs : list point)
| GLinearRing (cs : list point)
| GPolygon (p : Polygon)
| GMultiPoint (cs : list point)
| GMultiLineString (ls : list (list point))
| GMultiPolygon (ps : list Polygon)
| GGeometryCollection (gs : list Geometry).

(** [isinstance(g, shapely.Polygon)], with the polygon when it holds. *)
Definition as_Polygon (g : Geometry) : option Polygon :=
  match g with
  | GPolygon p => Some p
  | _ => None
  end.

(** [g.geoms]: the parts of a multi-part geometry.  The single-part
    classes have no such attribute; [None] is the [AttributeError]. *)
Definition geoms (g : Geometry) : option (list Geometry) :=
  match g with
  | GMultiPoint cs => Some (map (fun c => GPoint (Some c)) cs)
  | GMultiLineString ls => Some (map GLineString ls)
  | GMultiPolygon ps => Some (map GPolygon ps)
  | GGeometryCollection gs => Some gs
  | GPoint _ | GLineString _ | GLinearRing _ | GPolygon _ => None
  end.

(** [shapely.count_coordinates(ring)] and [shapely.get_coordinates(ring)]. *)
Definition count_coordinates (r : list point) : Z := Z.of_nat (length r).
Definition get_coordinates (r : list point) : list point := r.

(** [ring.reverse()] *)
Definition reverse (r : list point) : list point := rev r.

(** [shapely.linearrings(coords)]: fewer than three coordinates are
    refused; the first coordinate is appended when the sequence is not
    closed, or has exactly three coordinates. *)
Definition needs_closure (cs : list point) : bool :=
  match cs with
  | [] => false
  | c0 :: _ =>
      (length cs =? 3)%nat || negb (bool_decide (c0 = List.last cs c0))
  end.

Definition linearrings (cs : list point) : result (list point) :=
  let extra := if needs_closure cs then 1%nat else 0%nat in
  if (length cs + extra <? 4)%nat then Raise ValueError
  else Ok (if needs_closure cs then cs ++ firstn 1 cs else cs).

(** [shapely.Polygon(coords)] on a coordinate sequence (a list of pairs or
    an N x 2 array): no coordinates give the empty polygon, otherwise the
    shell goes through [linearrings].  The ring is not validated. *)
Definition Polygon_of_coords (cs : list point) : result Polygon :=
  match cs with
  | [] => Ok Polygon_empty
  | _ => bind (linearrings cs) (fun r => Ok (mkPolygon r))
  end.

(** [shapely.Polygon(ring)] on an existing [LinearRing]: the ring becomes
    the shell as it is. *)
Definition Polygon_of_ring (r : list point) : Polygon := mkPolygon r.

(** Twice the signed area of a closed coordinate sequence (shoelace sum):
    positive for a counter-clockwise ring. *)
Definition cross (a b : point) : Qc := a.1 * b.2 - b.1 * a.2.

Fixpoint signed_area2 (r : list point) : Qc :=
  match r with
  | a :: (b :: _) as t => cross a b + signed_area2 t
  | _ => 0
  end.

Definition Qc_abs (x : Qc) : Qc := if bool_decide (0 <= x) then x else - x.

(** [polygon.area] *)
Definition area (p : Polygon) : Qc :=
  Qc_abs (signed_area2 (exterior p)) * Q2Qc (1 # 2).

(** The orientation test as documented: a ring is counter-clockwise when
    its signed area is positive.  This is the reference against which the
    library's [is_ccw] is compared, not the library's algorithm. *)
Definition ccw_shoelace (r : list point) : bool :=
  bool_decide (0 < signed_area2 r).

(** A ring as GEOS keeps it: no coordinates, or at least four with the
    first repeated at the end. *)
Definition closed (r : list point) : Prop :=
  match r with
  | [] => True
  | c0 :: _ => List.last r c0 = c0
  end.

Definition ring_ok (r : list point) : Prop :=
  r = [] \/ ((4 <= length r)%nat /\ closed r).

End Shapely.
Import Shapely.

(** Python's [range(n)]. *)
Definition range (n : Z) : list Z := map Z.of_nat (seq 0 (Z.to_nat n)).

(** Python's [l[:n]], negative [n] counting from the end. *)
Definition slice_to {A} (l : list A) (n : Z) : list A :=
  if (n <? 0)%Z then firstn (Z.to_nat (Z.of_nat (length l) + n)) l
  else firstn (Z.to_nat n) l.

(** A 4 x 4 transform matrix (what [render.getMatrix] hands over), by rows. *)
Definition vec4 : Type := Qc * Qc * Qc * Qc.
Definition mat4 : Type := vec4 * vec4 * vec4 * vec4.

(** One row of [points_h @ M]. *)
Definition row_matmul (v : vec4) (M : mat4) : vec4 :=
  let '(v0, v1, v2, v3) := v in
  let '(r0, r1, r2, r3) := M in
  let '(a0, a1, a2, a3) := r0 in
  let '(b0, b1, b2, b3) := r1 in
  let '(c0, c1, c2, c3) := r2 in
  let '(d0, d1, d2, d3) := r3 in
  (v0 * a0 + v1 * b0 + v2 * c0 + v3 * d0,
   v0 * a1 + v1 * b1 + v2 * c1 + v3 * d1,
   v0 * a2 + v1 * b2 + v2 * c2 + v3 * d2,
   v0 * a3 + v1 * b3 + v2 * c3 + v3 * d3).

(** [np.hstack([points, zeros, ones])], one row. *)
Definition homogenize (p : point) : vec4 := (p.1, p.2, 0, 1).

(** [[:, :2]], one row. *)
Definition first_two (v : vec4) : point :=
  let '(x, y, _, _) := v in (x, y).

Definition transform_points (M : mat4) (points : list point) : list point :=
  map (fun p => first_two (row_matmul (homogenize p) M)) points.

Definition identity_mat : mat4 :=
  ((1, 0, 0, 0), (0, 1, 0, 0), (0, 0, 1, 0), (0, 0, 0, 1)).

(** The dictionary [extrude] returns. *)
Record Prism : Type := mkPrism {
  polygon : Polygon;
  vertices : list (Qc * Qc * Qc);
  lines : list (Z * Z);
  bases : list (list Z);
  quads : list (Z * Z * Z * Z);
  isConvex : bool
}.

(** [grid_size = 0.05] *)
Definition grid_size : Qc := Q2Qc (1 # 20).

(** ** Concrete shapes, matrices and library stand-ins used by the examples *)

Definition qz (n : Z) : Qc := Q2Qc (inject_Z n).

Definition pt (x y : Z) : point := (qz x, qz y).

(** The catalog ring of the unit square, as the JSON file lists it. *)
Definition square_raw : list point := [pt 0 0; pt 1 0; pt 1 1; pt 0 1].

(** The unit square as a polygon: ring closed, counter-clockwise. *)
Definition unit_square : Polygon :=
  mkPolygon [pt 0 0; pt 1 0; pt 1 1; pt 0 1; pt 0 0].

(** The same square traversed clockwise. *)
Definition unit_square_cw : Polygon :=
  mkPolygon [pt 0 0; pt 0 1; pt 1 1; pt 1 0; pt 0 0].

(** A 2 x 2 square ten units to the right. *)
Definition far_square : Polygon :=
  mkPolygon [pt 10 0; pt 12 0; pt 12 2; pt 10 2; pt 10 0].

(** A clockwise 2 x 2 square twenty units to the right. *)
Definition wide_square_cw : Polygon :=
  mkPolygon [pt 20 0; pt 20 2; pt 22 2; pt 22 0; pt 20 0].

(** The L-shaped hexagon. *)
Definition ell : Polygon :=
  mkPolygon [pt 0 0; pt 2 0; pt 2 1; pt 1 1; pt 1 2; pt 0 2; pt 0 0].

(** A bow-tie: the edges (0,0)-(1,1) and (1,0)-(0,1) cross at (1/2,1/2). *)
Definition bowtie_raw : list point := [pt 0 0; pt 1 1; pt 1 0; pt 0 1].

(** Three collinear points. *)
Definition flat_raw : list point := [pt 0 0; pt 1 1; pt 2 2].

Definition shapes_example : gmap string (list point) :=
  {[ "square" := square_raw; "bowtie" := bowtie_raw;
     "flat" := flat_raw; "blank" := []; "pair" := [pt 0 0; pt 1 1] ]}.

(** A quarter turn about the x axis: (x, y, 0, 1) goes to (x, 0, y, 1), so
    the flattened image of any polygon lies on the line y = 0. *)
Definition quarter_turn_x : mat4 :=
  ((1, 0, 0, 0), (0, 0, 1, 0), (0, -1, 0, 0), (0, 0, 0, 1)).

(** A translation by (3, 4, 0), in the row-vector convention of
    [points_h @ M]. *)
Definition shift_3_4 : mat4 :=
  ((1, 0, 0, 0), (0, 1, 0, 0), (0, 0, 1, 0), (qz 3, qz 4, 0, 1)).

(** An overlay that answers every call with the geometry [g]. *)
Definition overlay_giving (g : Geometry)
  : Polygon -> Polygon -> Qc -> result Geometry :=
  fun _ _ _ => Ok g.

(** A hull and an equality test that only know the empty polygon. *)
Definition hull_of_empty (p : Polygon) : Geometry := GGeometryCollection [].

Definition both_empty (a b : Geometry) : bool :=
  match a, b with
  | GPolygon p, GGeometryCollection [] => is_empty p
  | _, _ => false
  end.

(** The four indices of a side quad are pairwise distinct. *)
Definition quad_distinct (q : Z * Z * Z * Z) : Prop :=
  let '(bl, br, tr, tl) := q in
  bl <> br /\ bl <> tr /\ bl <> tl /\ br <> tr /\ br <> tl /\ tr <> tl.

(** ** Vocabulary of the properties *)

(** A polygonal piece: a polygon that has coordinates. *)
Definition polygonal_piece (g : Geometry) : bool :=
  match as_Polygon g with
  | Some p => negb (is_empty p)
  | None => false
  end.

(** An overlay result is not polygonal when neither it nor any of its parts
    is a polygonal piece: the empty result, points, lines, and collections
    of those. *)
Definition not_polygonal (g : Geometry) : bool :=
  match geoms g with
  | Some gs => forallb (fun m => negb (polygonal_piece m)) gs
  | None => negb (polygonal_piece g)
  end.

(** The polygon [x] is the overlay result [g] or one of its parts. *)
Definition piece_of (g : Geometry) (x : Polygon) : Prop :=
  g = GPolygon x \/ exists gs, geoms g = Some gs /\ In (GPolygon x) gs.

(** [q] lies strictly inside the segment from [a] to [b]. *)
Definition inside_segment (a b q : point) : Prop :=
  exists t : Qc,
    0 < t /\ t < 1 /\
    q = (a.1 + t * (b.1 - a.1), a.2 + t * (b.2 - a.2)).

(** Two edges of the ring, not neighbours, cross in their interiors. *)
Definition self_intersecting (raw : list point) : Prop :=
  exists l1 a b l2 c d l3 q,
    raw = l1 ++ a :: b :: l2 ++ c :: d :: l3 /\
    inside_segment a b q /\ inside_segment c d q.

(** The boundary is never clockwise, and it is counter-clockwise as soon as
    the polygon has area. *)
Definition never_clockwise (q : Polygon) : Prop :=
  0 <= signed_area2 (exterior q) /\
  (0 < area q -> 0 < signed_area2 (exterior q)).

From Stdlib Require Qround Qpower.

(** ** Vocabulary of the further properties *)

(** [i] is a position in an array of [n] elements, counted from the front. *)
Definition index_ok (n : nat) (i : Z) : Prop := (0 <= i < Z.of_nat n)%Z.

(** [vertexArray[i]] for an index counted from the front. *)
Definition vertex_at (vs : list (Qc * Qc * Qc)) (i : Z) : option (Qc * Qc * Qc) :=
  nth_error vs (Z.to_nat i).

(** The side quad [q] is a wall standing on one edge of the ring: its two
    left corners lie above the ring coordinate [a], its two right corners
    above the next ring coordinate [b] (cyclically), the bottom ones at
    height 0 and the top ones at height [depth]. *)
Definition quad_is_wall (vs : list (Qc * Qc * Qc)) (ring : list point)
    (depth : Qc) (q : Z * Z * Z * Z) : Prop :=
  let '(bl, br, tr, tl) := q in
  exists (j : nat) (a b : point),
    nth_error ring j = Some a /\
    nth_error ring (S j mod (length ring - 1)) = Some b /\
    vertex_at vs bl = Some (a.1, a.2, 0) /\
    vertex_at vs tl = Some (a.1, a.2, depth) /\
    vertex_at vs br = Some (b.1, b.2, 0) /\
    vertex_at vs tr = Some (b.1, b.2, depth).

(** The line [l] of the wireframe is an edge of the prism: an edge of the
    ring at height 0, the same edge at height [depth] (run the other way),
    or the upright over one ring coordinate. *)
Definition line_is_edge (vs : list (Qc * Qc * Qc)) (ring : list point)
    (depth : Qc) (l : Z * Z) : Prop :=
  exists (j : nat) (a b : point),
    nth_error ring j = Some a /\
    nth_error ring (S j mod (length ring - 1)) = Some b /\
    ((vertex_at vs l.1 = Some (a.1, a.2, 0) /\
      vertex_at vs l.2 = Some (b.1, b.2, 0))
     \/
     (vertex_at vs l.1 = Some (b.1, b.2, depth) /\
      vertex_at vs l.2 = Some (a.1, a.2, depth))
     \/
     (vertex_at vs l.1 = Some (a.1, a.2, 0) /\
      vertex_at vs l.2 = Some (a.1, a.2, depth))).

(** The six entries of the matrix that reach the result of
    [spacialTransform]: the x and y columns of rows 0, 1 and 3. *)
Definition planar_part (M : mat4) : Qc * Qc * Qc * Qc * Qc * Qc :=
  let '(r0, r1, _, r3) := M in
  let '(a0, a1, _, _) := r0 in
  let '(b0, b1, _, _) := r1 in
  let '(d0, d1, _, _) := r3 in
  (a0, a1, b0, b1, d0, d1).

(** ** The rest of [polygons.py], and [utils.py] *)

(** The Python exceptions of the code outside the shapely calls. *)
Module Py.

Inductive exn : Type :=
| FileNotFoundError   (* open() of a file that is not there *)
| JSONDecodeError     (* json.load of text that is not JSON *)
| KeyError            (* dict lookup of an absent key *)
| IndexError.         (* sequence index out of range, choice of nothing *)

Inductive result (A : Type) : Type :=
| Ok (a : A)
| Raise (e : exn).
Global Arguments Ok {A} a.
Global Arguments Raise {A} e.

Definition bind {A B} (r : result A) (k : A -> result B) : result B :=
  match r with
  | Ok a => k a
  | Raise e => Raise e
  end.

End Py.

(** [allShapes], on the dictionary loaded from [res/shapes.json]:
    [list(load(f).keys())].  Python lists the keys in file order; a [gmap]
    has its own order, so only order-free facts are stated about it. *)
Definition allShapes (shapes : gmap string (list point)) : list string :=
  (map_to_list shapes).*1.

(** [random.choice(seq)] is [seq[k]] for the index [k] the generator draws
    below [len(seq)], and [IndexError] on an empty sequence.  The draw is an
    argument here. *)
Definition choice {A} (seq : list A) (k : nat) : Py.result A :=
  match seq with
  | [] => Py.Raise Py.IndexError
  | _ =>
      match nth_error seq k with
      | Some x => Py.Ok x
      | None => Py.Raise Py.IndexError
      end
  end.

(** [randomShape] *)
Definition randomShape (shapes : gmap string (list point)) (k : nat)
  : Py.result string :=
  choice (allShapes shapes) k.

(** The file [highscores.json] as the program finds it: not there, there
    but not JSON, or a JSON object of integer scores by level name. *)
Inductive ScoreFile : Type :=
| NoFile
| NotJson
| Scores (scores : gmap string Z).

(** The object [checkHighScoreJson] writes. *)
Definition template_scores : gmap string Z :=
  list_to_map
    [("square", 0); ("triangle", 0); ("rectangle", 0);
     ("hexagon", 0); ("caret", 0); ("slant", 0);
     ("pentagon", 0); ("en", 0); ("kay", 0);
     ("mta_arrow", 0); ("pi", 0); ("double_u", 0)]%Z.

(** [checkHighScoreJson]: the template is written only when opening the
    file for reading fails; a file that opens is left as it is, JSON or
    not. *)
Definition checkHighScoreJson (f : ScoreFile) : ScoreFile :=
  match f with
  | NoFile => Scores template_scores
  | NotJson | Scores _ => f
  end.

(** [open(..., "r")] followed by [load(f)]. *)
Definition load_scores (f : ScoreFile) : Py.result (gmap string Z) :=
  match f with
  | NoFile => Py.Raise Py.FileNotFoundError
  | NotJson => Py.Raise Py.JSONDecodeError
  | Scores scores => Py.Ok scores
  end.

(** [getHighScore] *)
Definition getHighScore (f : ScoreFile) (shapeName : string) : Py.result Z :=
  Py.bind (load_scores f) (fun scores =>
    match scores !! shapeName with
    | Some s => Py.Ok s
    | None => Py.Raise Py.KeyError
    end).

(** [setHighScore]: the value is the file afterwards; when reading raises,
    nothing has been written. *)
Definition setHighScore (f : ScoreFile) (shapeName : string) (highScore : Z)
  : Py.result ScoreFile :=
  Py.bind (load_scores f) (fun scores =>
    Py.Ok (Scores (<[shapeName := highScore]> scores))).

(** An entry of [thresholds]: [0], or [[level, score]]. *)
Inductive threshold : Type :=
| Unlocked
| Needs (level : string) (score : Z).

(** [thresholds] *)
Definition thresholds : gmap string threshold :=
  list_to_map
    [("square", Unlocked); ("triangle", Unlocked);
     ("rectangle", Needs "square" 5);
     ("hexagon", Needs "rectangle" 10);
     ("caret", Needs "hexagon" 10);
     ("slant", Needs "hexagon" 10);
     ("pentagon", Needs "slant" 15);
     ("en", Needs "pentagon" 15);
     ("kay", Needs "pentagon" 15);
     ("mta_arrow", Needs "en" 10);
     ("pi", Needs "kay" 10);
     ("double_u", Needs "mta_arrow" 15)]%Z.

(** [friendlyNames] *)
Definition friendlyNames : gmap string string :=
  list_to_map
    [("square", "Square"); ("triangle", "Triangle");
     ("rectangle", "Rectangle");
     ("hexagon", "Long Hexagon"); ("caret", "Caret");
     ("slant", "Slanted Quad");
     ("pentagon", "Pentagon Hat"); ("en", "Uppercase N");
     ("kay", "Lowercase K");
     ("mta_arrow", "MTA Arrow"); ("pi", "Pi");
     ("double_u", "Uppercase W")].

(** The lock that [LevelSelector.__init__] computes ([self.__locked]). *)
Definition LevelSelector_locked (f : ScoreFile) (levelName : string)
  : Py.result bool :=
  match thresholds !! levelName with
  | None => Py.Raise Py.KeyError
  | Some Unlocked => Py.Ok false
  | Some (Needs level score) =>
      Py.bind (getHighScore f level) (fun s =>
        Py.Ok (negb (score <=? s)%Z))
  end.

(** The high-score bookkeeping of the game-over screen of [gamePage]:
    [newHigh] and the file afterwards. *)
Definition record_score (f : ScoreFile) (gameShape : string) (score : Z)
  : Py.result (bool * ScoreFile) :=
  Py.bind (getHighScore f gameShape) (fun old =>
    if (old <? score)%Z
    then Py.bind (setHighScore f gameShape score) (fun f' =>
           Py.Ok (true, f'))
    else Py.Ok (false, f)).

(** Every score of [scores'] is at least the score of [scores] for the
    same level. *)
Definition scores_le (scores scores' : gmap string Z) : Prop :=
  forall level s, scores !! level = Some s ->
    exists s', scores' !! level = Some s' /\ (s <= s')%Z.

(** ** Motion, cursor, lives and timer ([stackplus.py]) *)

(** *** Floating point

    Python's [float] is an IEEE 754 double.  A finite double is a rational
    number, and an arithmetic operation on doubles returns the exact result
    rounded to a double.  The operations below take that rounding, [rnd],
    as a parameter, and [rnd64] is the rounding of binary64 (to nearest,
    ties to even): the properties further down are proved for every
    rounding that is monotone and leaves the constants they name
    unchanged, and stated for [rnd64].  Infinities and NaN, which the
    numbers of the game (window coordinates, angles, seconds) do not
    reach, are not modelled, and neither is the sign of zero.  An [int]
    that meets a [float] is converted first, which is [rnd] again; the
    quotient of two [int]s is the exact quotient rounded. *)

(** [2 ^ e] *)
Definition pow2 (e : Z) : Q := (Qpower 2 e)%Q.

(** [floor (log2 x)] for a positive [x]. *)
Definition ilog2 (x : Q) : Z :=
  let k := (Z.log2 (Qnum x) - Z.log2 (Z.pos (Qden x)))%Z in
  if Qle_bool (pow2 k) x then k else (k - 1)%Z.

(** The nearest integer, ties to the even one. *)
Definition rne (y : Q) : Z :=
  let f := Qround.Qfloor y in
  match ((y - inject_Z f) ?= (1 # 2))%Q with
  | Lt => f
  | Gt => (f + 1)%Z
  | Eq => if Z.even f then f else (f + 1)%Z
  end.

(** The exponent of the last place of the doubles around a positive [x]:
    53 bits of precision, and the spacing [2 ^ -1074] of the subnormal
    doubles below [2 ^ -1022]. *)
Definition ulp_exp (x : Q) : Z := (Z.max (ilog2 x) (-1022) - 52)%Z.

Definition round_pos (x : Q) : Q :=
  (inject_Z (rne (x / pow2 (ulp_exp x))) * pow2 (ulp_exp x))%Q.

(** Rounding to the nearest double, ties to even; it is symmetric
    about 0. *)
Definition round64 (x : Q) : Q :=
  match (x ?= 0)%Q with
  | Eq => 0%Q
  | Gt => round_pos x
  | Lt => (- round_pos (- x))%Q
  end.

Definition rnd64 (x : Qc) : Qc := Q2Qc (round64 x).

(** A rounding is monotone; a number is a double when rounding leaves it
    as it is. *)
Definition monotone (rnd : Qc -> Qc) : Prop :=
  forall x y, x <= y -> rnd x <= rnd y.

Definition is_double (rnd : Qc -> Qc) (x : Qc) : Prop := rnd x = x.

(** The numbers met in a frame of the game are far from the largest
    double: within [2 ^ 31] in magnitude no operation below overflows. *)
Definition moderate (x : Qc) : Prop := Qc_abs x <= qz (2 ^ 31).

(** [math.floor] of a number, and its truncation towards 0. *)
Definition qfloor (x : Qc) : Z := Qround.Qfloor (this x).

Definition qtrunc (x : Qc) : Z :=
  Z.quot (Qnum (this x)) (Z.pos (Qden (this x))).

Definition half : Qc := Q2Qc (1 # 2).

(** [width] *)
Definition width : Z := 960.

(** [getMouseX]; [mouse_x] is [pygame.mouse.get_pos()[0]]. *)
Definition getMouseX (invert : bool) (mouse_x : Z) : Z :=
  Z.abs ((if invert then 1 else 0) * width - mouse_x).

(** [LifeManager]: [__max] and [num]. *)
Record LifeManager : Type := mkLives {
  lives_max : Z;
  lives_num : Z
}.

(** [LifeManager.__init__] *)
Definition LifeManager_init (lifeNum : Z) : LifeManager :=
  mkLives lifeNum lifeNum.

(** [LifeManager.killLife] *)
Definition killLife (l : LifeManager) : LifeManager :=
  mkLives (lives_max l) (Z.max (lives_num l - 1) 0).

Inductive sprite : Type := LifeSprite | DeathSprite.

(** One of the two loops of [LifeManager.update]: [n] blits of [s] down a
    column, each [rowHeight + 20] below the one before; the value is the
    blits and [newPos] afterwards. *)
Fixpoint blit_column (s : sprite) (n : nat) (rowHeight : Z) (newPos : Z * Z)
  : list (sprite * (Z * Z)) * (Z * Z) :=
  match n with
  | O => ([], newPos)
  | S n' =>
      let '(rest, final) :=
        blit_column s n' rowHeight (newPos.1, newPos.2 + (rowHeight + 20))%Z in
      ((s, newPos) :: rest, final)
  end.

(** [LifeManager.update]: what it blits, in order. *)
Definition LifeManager_update (pos : Z * Z) (rowHeight : Z) (l : LifeManager)
  : list (sprite * (Z * Z)) :=
  let '(alive, newPos) :=
    blit_column LifeSprite (Z.to_nat (lives_num l)) rowHeight pos in
  let '(dead, _) :=
    blit_column DeathSprite (Z.to_nat (lives_max l - lives_num l))
      rowHeight newPos in
  alive ++ dead.

(** [VerticalTimer]: the height of the bar image (a number of pixels,
    which is a double), [__perSecond], [__progress], [__warnSoundPlayed]
    and [restarted]. *)
Record VerticalTimer : Type := mkTimer {
  bar_height : Qc;
  perSecond : Qc;
  progress : Qc;
  warnSoundPlayed : bool;
  restarted : bool
}.

Section Floats.

Variable rnd : Qc -> Qc.

(** [a + b], [a - b], [a * b] and [a / b] on doubles. *)
Definition fadd (a b : Qc) : Qc := rnd (a + b).

Definition fsub (a b : Qc) : Qc := rnd (a - b).

Definition fmul (a b : Qc) : Qc := rnd (a * b).

Definition fdiv (a b : Qc) : Qc := rnd (a / b).

(** C's [fmod]: the remainder with the sign of [a]; it is exact. *)
Definition fmod (a b : Qc) : Qc := a - b * qz (qtrunc (a / b)).

(** [a % b] on doubles, as CPython computes it: [fmod], and when the
    remainder is not zero and its sign differs from that of [b], the
    remainder plus [b], which is rounded.  ([b = 0] raises; the program
    takes remainders by 1, by 360 and by the height of the timer image.) *)
Definition float_rem (a b : Qc) : Qc :=
  let m := fmod a b in
  if bool_decide (m <> 0) && xorb (bool_decide (b < 0)) (bool_decide (m < 0))
  then rnd (m + b)
  else m.

(** [ctrlPos]: [4 * A * abs((x / T - d) % 1 - 0.5) - A] *)
Definition ctrlPos (A T d x : Qc) : Qc :=
  fsub (fmul (fmul (qz 4) A)
             (Qc_abs (fsub (float_rem (fsub (fdiv x T) d) 1) half)))
       A.

(** The position of the control block in a frame of [gamePage]:
    [(controlX, controlY)]. *)
Definition control_position (forward : bool) (amp period pt : Qc) : Qc * Qc :=
  ((if forward
    then ctrlPos amp period (- half) pt
    else ctrlPos amp period 0 pt),
   ctrlPos amp period 0 pt).

(** The angle, before snapping, that [mouseTheta] reads off the cursor:
    [(360 * (getMouseX(invertXAxis) / width) + offset) % 360]. *)
Definition mouse_angle (offset : Z) (invert : bool) (mouse_x : Z) : Qc :=
  float_rem
    (fadd (fmul (qz 360) (fdiv (qz (getMouseX invert mouse_x)) (qz width)))
          (rnd (qz offset)))
    (qz 360).

(** [mouseTheta]; [invert] is the global [invertXAxis]. *)
Definition mouseTheta (step offset : Z) (invert : bool) (mouse_x : Z) : Z :=
  (qfloor (fdiv (mouse_angle offset invert mouse_x) (rnd (qz step)))
   * step)%Z.

(** [VerticalTimer.__init__], for a bar image [height] pixels tall. *)
Definition VerticalTimer_init (height time : Z) : VerticalTimer :=
  mkTimer (qz height) (fdiv (qz height) (qz time)) 0 false false.

(** [VerticalTimer.reset] *)
Definition VerticalTimer_reset (t : VerticalTimer) : VerticalTimer :=
  mkTimer (bar_height t) (perSecond t) 0 false (restarted t).

(** [VerticalTimer.update]: the timer afterwards, and whether the warning
    sound was played. *)
Definition VerticalTimer_update (t : VerticalTimer) (dt : Qc)
  : VerticalTimer * bool :=
  let p1 := fadd (progress t) (fmul (perSecond t) dt) in
  let over := bool_decide (bar_height t < p1) in
  let p2 := if over then float_rem p1 (bar_height t) else p1 in
  let played := if over then false else warnSoundPlayed t in
  let warn :=
    bool_decide (fmul (Q2Qc (3 # 4)) (bar_height t) <= p2) && negb played in
  (mkTimer (bar_height t) (perSecond t) p2 (warn || played) over, warn).

(** [update] called once per frame with the frame times [dts]: the timer
    after each call, and whether that call played the warning. *)
Fixpoint VerticalTimer_trace (t : VerticalTimer) (dts : list Qc)
  : list (VerticalTimer * bool) :=
  match dts with
  | [] => []
  | dt :: rest =>
      let r := VerticalTimer_update t dt in
      r :: VerticalTimer_trace r.1 rest
  end.

End Floats.

(** [blockColors] *)
Definition blockColors : list (Z * Z * Z) :=
  [(248, 113, 113); (251, 146, 60); (251, 191, 36); (250, 204, 21);
   (163, 230, 53); (74, 222, 128); (52, 211, 153); (45, 212, 191);
   (34, 211, 238); (56, 189, 248); (96, 165, 250); (129, 140, 248);
   (167, 139, 250); (192, 132, 252); (232, 121, 249); (244, 114, 182);
   (251, 113, 133)]%Z.

(** What one pass of the loop of [gamePage] takes from outside: whether the
    left button went down, the frame time, and the three matrices that
    [render.getMatrix] would return ([0, 0, -1, 45] for the tower base,
    [0, 0, -1, 0] for the top layer, the pose of the control block). *)
Record FrameInput : Type := mkInput {
  f_clicked : bool;
  f_dt : Qc;
  f_baseMat : mat4;
  f_layerMat : mat4;
  f_controlMat : mat4
}.

(** The variables of [gamePage] that its stacking logic reads and writes. *)
Record Game : Type := mkGame {
  g_control : Prism;
  g_tower : list Prism;
  g_towerBase : Prism;
  g_forward : bool;
  g_colIndex : Z;
  g_score : Z;
  g_lives : LifeManager;
  g_timer : VerticalTimer;
  g_gameover : bool
}.

(** What holds of the variables of [gamePage] at the top of every pass. *)
Definition Game_inv (g : Game) : Prop :=
  (length (g_tower g) <= 8)%nat /\
  (0 <= g_colIndex g < Z.of_nat (length blockColors))%Z /\
  (0 <= lives_num (g_lives g) <= lives_max (g_lives g))%Z.

(** The tower after the pre-render step of a pass ([tower.pop(0)] when it
    holds more than 7 prisms). *)
Definition frame_tower (g : Game) : list Prism :=
  if (7 <? length (g_tower g))%nat then skipn 1 (g_tower g) else g_tower g.

(** The polygon a click stacks onto, and the matrix it is transformed by:
    the tower base while the tower is empty, the top layer afterwards. *)
Definition click_base_polygon (g : Game) : Polygon :=
  if (length (frame_tower g) =? 0)%nat then polygon (g_towerBase g)
  else polygon (List.last (frame_tower g) (g_towerBase g)).

Definition click_base_matrix (g : Game) (inp : FrameInput) : mat4 :=
  if (length (frame_tower g) =? 0)%nat then f_baseMat inp
  else f_layerMat inp.

(** The variables of [gamePage] before its loop, for the control prism
    [extrude(get(gameShape))] and a timer image [barHeight] pixels tall:
    empty tower, three lives, six seconds on the timer, no score. *)
Definition gamePage_start (rnd : Qc -> Qc) (control : Prism) (barHeight : Z)
  : Game :=
  mkGame control [] control true 0 0
         (LifeManager_init 3) (VerticalTimer_init rnd barHeight 6) false.

(** Frame inputs for the examples: a pass without a click, and a click with
    the control block moved by (3, 4). *)
Definition idle_input : FrameInput :=
  mkInput false (Q2Qc (1 # 60)) identity_mat identity_mat shift_3_4.

Definition click_input : FrameInput :=
  mkInput true (Q2Qc (1 # 60)) identity_mat identity_mat shift_3_4.

(** [shift_3_4] with a shift along z added. *)
Definition shift_3_4_down : mat4 :=
  ((1, 0, 0, 0), (0, 1, 0, 0), (0, 0, 1, 0), (qz 3, qz 4, - (1), 1)).

(** ** The program *)

Section Polygons.

(** The GEOS algorithms behind [ring.is_ccw], [shapely.intersection],
  [polygon.convex_hull] and [shapely.equals]. *)
Variable is_ccw : list point -> bool.
Variable intersection : Polygon -> Polygon -> Qc -> result Geometry.
Variable convex_hull : Polygon -> Geometry.
Variable equals : Geometry -> Geometry -> bool.

(** [__forceCCW] *)
Definition forceCCW (polygon : Polygon) : Polygon :=
  if negb (is_ccw (exterior polygon))
  then Polygon_of_ring (reverse (exterior polygon))
  else polygon.

(** [get], on the dictionary loaded from [res/shapes.json]. *)
Definition get (shapes : gmap string (list point)) (shapeName : string)
  : result Polygon :=
  match shapes !! shapeName with
  | None => Raise KeyError
  | Some raw => bind (Polygon_of_coords raw) (fun p => Ok (forceCCW p))
  end.

(** [extrude]; [depth] defaults to 1.0 in the source. *)
Definition extrude (polygon0 : Polygon) (depth : Qc) : Prism :=
  let polygon := forceCCW polygon0 in
  let num := (count_coordinates (exterior polygon) - 1)%Z in
  let exterior := slice_to (get_coordinates (exterior polygon)) num in
  {| polygon := polygon;
     vertices :=
       map (fun '(x, y) => (x, y, 0)) (rev exterior)
       ++ map (fun '(x, y) => (x, y, depth)) exterior;
     lines :=
       map (fun i => (i, (i - 1) mod num)%Z) (range num)
       ++ map (fun i => (i + num, ((i - 1) mod num) + num)%Z) (range num)
       ++ map (fun i => (i, - i + (2 * num - 1))%Z) (range num);
     bases :=
       [ range num ] ++ [ map (fun i => (i + num)%Z) (range num) ];
     quads :=
       map (fun i => (i,
                      (i - 1) mod num,
                      ((- i) mod num) + num,
                      ((- i - 1) mod num) + num)%Z) (range num);
     isConvex := equals (GPolygon polygon) (convex_hull polygon) |}.

(** [spacialTransform] *)
Definition spacialTransform (polygon : Polygon) (transformMat : mat4)
  : result Polygon :=
  let points := get_coordinates (exterior polygon) in
  bind (Polygon_of_coords (transform_points transformMat points))
       (fun p => Ok (forceCCW p)).

(** One turn of the loop of [andPolygons]. *)
Definition keep_larger (largest : Polygon) (p : Geometry) : Polygon :=
  match as_Polygon p with
  | Some q => if bool_decide (area largest < area q) then q else largest
  | None => largest
  end.

(** [andPolygons] *)
Definition andPolygons (polygon1 polygon2 : Polygon) : result Polygon :=
  bind (intersection polygon1 polygon2 grid_size) (fun result =>
    match as_Polygon result with
    | None =>
        match geoms result with
        | Some gs => Ok (forceCCW (fold_left keep_larger gs Polygon_empty))
        | None => Ok Polygon_empty
        end
    | Some p => Ok (forceCCW p)
    end).

(** The library's orientation test gives the documented answer on [r]. *)
Definition orientation_agrees (r : list point) : Prop :=
  is_ccw r = ccw_shoelace r.

(** The rounding of the floating-point operations of the timer. *)
Variable rnd : Qc -> Qc.

(** The [if clicked:] block of [gamePage]: the new control prism, the
    tower, [forward], [colIndex] and the timer afterwards.  [tower] and
    [stack] are the values after the pre-render step of the same pass. *)
Definition gamePage_click (g : Game) (inp : FrameInput) (tower : list Prism)
    (timer : VerticalTimer)
  : result (Prism * list Prism * bool * Z * VerticalTimer) :=
  let stack := length tower in
  let timer := VerticalTimer_reset timer in
  bind (if (stack =? 0)%nat
        then spacialTransform (polygon (g_towerBase g)) (f_baseMat inp)
        else spacialTransform (polygon (List.last tower (g_towerBase g)))
                              (f_layerMat inp))
    (fun newBase =>
  bind (spacialTransform (polygon (g_control g)) (f_controlMat inp))
    (fun newControl =>
  bind (andPolygons newBase newControl)
    (fun shape =>
  let control := extrude shape 1 in
  Ok (control, tower ++ [control], negb (g_forward g),
      ((g_colIndex g + 1) mod Z.of_nat (length blockColors))%Z, timer)))).

(** One pass of the [while True] loop of [gamePage], from the pre-render
    step on, for a round that is neither paused nor over: the stacking
    logic without the drawing. *)
Definition gamePage_frame (g : Game) (inp : FrameInput) : result Game :=
  (* pre-render *)
  let tower := frame_tower g in
  (* render: timer.update(dt) *)
  let timer := (VerticalTimer_update rnd (g_timer g) (f_dt inp)).1 in
  (* post-render *)
  bind (if f_clicked inp then gamePage_click g inp tower timer
        else Ok (g_control g, tower, g_forward g, g_colIndex g, timer))
    (fun '(control, tower', forward, colIndex, timer') =>
  let gameover :=
    (length (vertices control) <? 3)%nat
    || (lives_num (g_lives g) =? 0)%Z
    || g_gameover g in
  let lives :=
    if restarted timer' then killLife (g_lives g) else g_lives g in
  let score :=
    if f_clicked inp && negb gameover then (g_score g + 1)%Z
    else g_score g in
  Ok (mkGame control tower' (g_towerBase g) forward colIndex score
             lives timer' gameover)).

(** The passes of a round for the inputs [inps], one pass per input; the
    loop leaves the stacking logic once the round is over. *)
Fixpoint gamePage_run (g : Game) (inps : list FrameInput) : result Game :=
  match inps with
  | [] => Ok g
  | inp :: rest =>
      if g_gameover g then Ok g
      else bind (gamePage_frame g inp) (fun g1 => gamePage_run g1 rest)
  end.

(** ** Properties *)

(** Linear arithmetic on [Qc], through [Q]. *)
Ltac qc_lra :=
  unfold Qclt, Qcle, Qcminus, Qcplus, Qcopp, Q2Qc in *; cbn [this] in *;
  rewrite ?Qred_correct in *; lra.

(** *** Lists and indices *)

Lemma range_length (n : Z) : length (range n) = Z.to_nat n.
Proof. unfold range. by rewrite length_map, length_seq. Qed.

Lemma In_range (i n : Z) : In i (range n) -> (0 <= i < n)%Z.
Proof.
  unfold range. rewrite in_map_iff. intros (k & <- & Hk).
  apply in_seq in Hk. lia.
Qed.

Lemma slice_to_length {A} (l : list A) (n : Z) :
  (0 <= n <= Z.of_nat (length l))%Z -> length (slice_to l n) = Z.to_nat n.
Proof.
  intros Hn. unfold slice_to.
  destruct (n <? 0)%Z eqn:E; [apply Z.ltb_lt in E; lia|].
  rewrite length_firstn. lia.
Qed.

Lemma forceCCW_length (p : Polygon) :
  length (exterior (forceCCW p)) = length (exterior p).
Proof.
  unfold forceCCW. destruct (is_ccw (exterior p)); simpl; [done|].
  unfold reverse. apply length_rev.
Qed.

Lemma mod_wrap_down (k n : Z) :
  (0 < n)%Z -> (- n <= k < 0)%Z -> (k mod n = k + n)%Z.
Proof.
  intros Hn Hk. symmetry. apply (Z.mod_unique k n (-1)); lia.
Qed.

Lemma quad_indices_distinct (i n : Z) :
  (2 <= n)%Z -> (0 <= i < n)%Z ->
  quad_distinct (i, (i - 1) mod n, (- i) mod n + n, (- i - 1) mod n + n)%Z.
Proof.
  intros Hn Hi. unfold quad_distinct.
  rewrite (mod_wrap_down (- i - 1) n) by lia.
  destruct (Z.eq_dec i 0%Z) as [->|Hne].
  - rewrite (mod_wrap_down (0 - 1) n) by lia.
    change (- 0)%Z with 0%Z. rewrite Z.mod_0_l by lia.
    repeat split; lia.
  - rewrite (Z.mod_small (i - 1) n) by lia.
    rewrite (mod_wrap_down (- i) n) by lia.
    repeat split; lia.
Qed.

(** *** Extrusion *)

(** C3.  For a polygon whose ring carries N >= 3 vertices plus the closing
    coordinate, [extrude] yields 2N vertices, 3N lines, two bases of N
    indices each and N quads, and the four indices of every quad are
    pairwise distinct. *)
Theorem extrude_topology (p : Polygon) (depth : Qc) (N : nat) :
  (3 <= N)%nat ->
  length (exterior p) = S N ->
  let prism := extrude p depth in
  length (vertices prism) = (2 * N)%nat /\
  length (lines prism) = (3 * N)%nat /\
  length (bases prism) = 2%nat /\
  Forall (fun face => length face = N) (bases prism) /\
  length (quads prism) = N /\
  Forall quad_distinct (quads prism).
Proof.
  intros HN Hlen prism. subst prism. unfold extrude.
  pose proof (forceCCW_length p) as Hf. rewrite Hlen in Hf.
  unfold count_coordinates, get_coordinates. rewrite Hf.
  replace (Z.of_nat (S N) - 1)%Z with (Z.of_nat N) by lia.
  cbn [vertices lines bases quads].
  assert (Hs : length (slice_to (exterior (forceCCW p)) (Z.of_nat N)) = N).
  { rewrite slice_to_length; lia. }
  repeat split.
  - rewrite length_app, !length_map, length_rev. unfold point in *. lia.
  - rewrite !length_app, !length_map, !range_length. lia.
  - repeat constructor; rewrite ?length_map, range_length; lia.
  - rewrite length_map, range_length. lia.
  - apply List.Forall_forall. intros q Hq. apply in_map_iff in Hq.
    destruct Hq as (i & <- & Hi). apply In_range in Hi.
    apply quad_indices_distinct; lia.
Qed.


(** *** The shoelace sum under reversal *)

Lemma cross_swap (a b : point) : cross b a = - cross a b.
Proof. unfold cross. ring. Qed.

Lemma signed_area2_snoc (l : list point) (x a : point) :
  signed_area2 ((l ++ [x]) ++ [a]) = signed_area2 (l ++ [x]) + cross x a.
Proof.
  induction l as [|y l IH]; simpl.
  - ring.
  - destruct l as [|z l]; simpl in *.
    + ring.
    + rewrite IH. ring.
Qed.

Lemma signed_area2_rev (r : list point) :
  signed_area2 (rev r) = - signed_area2 r.
Proof.
  induction r as [|a [|b t] IH].
  - simpl. ring.
  - simpl. ring.
  - change (rev (a :: b :: t)) with ((rev t ++ [b]) ++ [a]).
    rewrite signed_area2_snoc.
    change (rev t ++ [b]) with (rev (b :: t)). rewrite IH.
    change (signed_area2 (a :: b :: t))
      with (cross a b + signed_area2 (b :: t)).
    rewrite cross_swap. ring.
Qed.

Lemma Qc_abs_opp (x : Qc) : Qc_abs (- x) = Qc_abs x.
Proof.
  unfold Qc_abs. repeat case_bool_decide; try ring.
  - apply Qc_is_canon. qc_lra.
  - exfalso. qc_lra.
Qed.

Lemma Qc_abs_nonneg (x : Qc) : 0 <= Qc_abs x.
Proof. unfold Qc_abs. case_bool_decide; qc_lra. Qed.

Lemma area_rev (r : list point) : area (mkPolygon (rev r)) = area (mkPolygon r).
Proof. unfold area. simpl. by rewrite signed_area2_rev, Qc_abs_opp. Qed.

(** shapely documents [is_ccw] as false on rings of fewer than four
    coordinates.  On a closed sequence that short the shoelace sum is zero,
    so the reference test gives the same answer. *)
Lemma ccw_shoelace_short (r : list point) :
  closed r -> (length r < 4)%nat -> ccw_shoelace r = false.
Proof.
  intros Hcl Hlen. unfold ccw_shoelace. apply bool_decide_eq_false_2.
  destruct r as [|a [|b [|c [|d t]]]]; simpl in Hlen; try lia.
  - simpl. qc_lra.
  - simpl. qc_lra.
  - unfold closed in Hcl. simpl in Hcl. subst b.
    assert (signed_area2 [a; a] = 0) as -> by (simpl; unfold cross; ring).
    qc_lra.
  - unfold closed in Hcl. simpl in Hcl. subst c.
    assert (signed_area2 [a; b; a] = 0) as ->
      by (simpl; unfold cross; ring).
    qc_lra.
Qed.

(** *** [__forceCCW] *)

Lemma forceCCW_cases (p : Polygon) :
  forceCCW p = p \/ forceCCW p = mkPolygon (rev (exterior p)).
Proof. unfold forceCCW. destruct (is_ccw _); simpl; auto. Qed.

Lemma forceCCW_empty : forceCCW Polygon_empty = Polygon_empty.
Proof. unfold forceCCW. by destruct (is_ccw _). Qed.

Lemma forceCCW_area (p : Polygon) : area (forceCCW p) = area p.
Proof.
  destruct (forceCCW_cases p) as [->| ->]; [done|].
  rewrite area_rev. by destruct p.
Qed.

Lemma forceCCW_Permutation (p : Polygon) :
  Permutation (exterior (forceCCW p)) (exterior p).
Proof.
  destruct (forceCCW_cases p) as [->| ->]; [done|].
  simpl. symmetry. apply Permutation_rev.
Qed.

Lemma closed_rev (r : list point) : closed r -> closed (rev r).
Proof.
  destruct r as [|c0 t]; [done|].
  intros Hcl. unfold closed in Hcl. cbn [rev].
  destruct (rev t) as [|x l] eqn:E.
  - done.
  - cbn [app]. unfold closed.
    change (x :: l ++ [c0]) with ((x :: l) ++ [c0]). rewrite last_last.
    assert (t = rev l ++ [x]) as ->.
    { rewrite <- (rev_involutive t), E. done. }
    change (c0 :: rev l ++ [x]) with ((c0 :: rev l) ++ [x]) in Hcl.
    by rewrite last_last in Hcl.
Qed.

(** [__forceCCW] keeps a ring a ring. *)
Lemma forceCCW_ring_ok (p : Polygon) :
  ring_ok (exterior p) -> ring_ok (exterior (forceCCW p)).
Proof.
  intros Hok. destruct (forceCCW_cases p) as [->| ->]; [done|].
  cbn [exterior]. destruct Hok as [->|[Hlen Hcl]]; [by left|].
  right. split; [by rewrite length_rev|by apply closed_rev].
Qed.

(** *** The polygon constructor *)

Lemma needs_closure_closed (r : list point) :
  (4 <= length r)%nat -> closed r -> needs_closure r = false.
Proof.
  intros Hlen Hcl. destruct r as [|c0 t]; [done|].
  unfold needs_closure, closed in *. rewrite Hcl.
  rewrite bool_decide_eq_true_2 by done.
  destruct (Nat.eqb_spec (length (c0 :: t)) 3); [lia|done].
Qed.

Lemma Polygon_of_coords_ring_ok (r : list point) :
  ring_ok r -> Polygon_of_coords r = Ok (mkPolygon r).
Proof.
  intros [->|[Hlen Hcl]]; [done|].
  destruct r as [|c0 t]; [done|].
  unfold Polygon_of_coords, linearrings.
  rewrite (needs_closure_closed _ Hlen Hcl).
  destruct (Nat.ltb_spec (length (c0 :: t) + 0) 4); [lia|done].
Qed.

Lemma Polygon_of_coords_short (cs : list point) :
  (1 <= length cs <= 2)%nat -> Polygon_of_coords cs = Raise ValueError.
Proof.
  intros Hlen. destruct cs as [|a [|b [|c t]]]; simpl in Hlen; try lia.
  - unfold Polygon_of_coords, linearrings. simpl.
    by rewrite bool_decide_eq_true_2.
  - unfold Polygon_of_coords, linearrings. simpl.
    by destruct (bool_decide (a = b)).
Qed.

Lemma Polygon_of_coords_long (cs : list point) :
  (3 <= length cs)%nat ->
  Polygon_of_coords cs =
    Ok (mkPolygon (if needs_closure cs then cs ++ firstn 1 cs else cs)).
Proof.
  intros Hlen. destruct cs as [|a t]; [simpl in Hlen; lia|].
  unfold Polygon_of_coords, linearrings.
  destruct (needs_closure (a :: t)) eqn:E.
  - destruct (Nat.ltb_spec (length (a :: t) + 1) 4); [lia|done].
  - destruct (Nat.ltb_spec (length (a :: t) + 0) 4) as [Hlt|]; [|done].
    exfalso. assert (length (a :: t) = 3%nat) as H3 by lia.
    unfold needs_closure in E. rewrite H3 in E. done.
Qed.

(** The ring that [Polygon_of_coords] builds is closed and has at least
    four coordinates, or is empty. *)
Lemma Polygon_of_coords_ok (cs : list point) (p : Polygon) :
  Polygon_of_coords cs = Ok p -> ring_ok (exterior p).
Proof.
  destruct cs as [|a t].
  - intros [= <-]. by left.
  - unfold Polygon_of_coords, linearrings.
    destruct (needs_closure (a :: t)) eqn:E.
    + destruct (Nat.ltb_spec (length (a :: t) + 1) 4); [done|].
      intros [= <-]. right. cbn [exterior].
      change (firstn 1 (a :: t)) with [a]. split.
      * simpl in *. rewrite length_app. simpl. lia.
      * change (List.last ((a :: t) ++ [a]) a = a). apply last_last.
    + destruct (Nat.ltb_spec (length (a :: t) + 0) 4); [done|].
      intros [= <-]. right. cbn [exterior]. split; [lia|].
      unfold needs_closure in E. apply orb_false_elim in E as [_ E].
      apply negb_false_iff, bool_decide_eq_true_1 in E. unfold closed. done.
Qed.

(** What [get] and [spacialTransform] return is a ring in the sense of
    [ring_ok]: these are the polygons [extrude] is called on. *)
Lemma get_ring_ok (shapes : gmap string (list point)) (name : string)
    (q : Polygon) :
  get shapes name = Ok q -> ring_ok (exterior q).
Proof.
  unfold get. destruct (shapes !! name) as [raw|]; [|done].
  destruct (Polygon_of_coords raw) as [x|e] eqn:E; [|done].
  intros [= <-]. eapply forceCCW_ring_ok, Polygon_of_coords_ok, E.
Qed.

Lemma spacialTransform_ring_ok (p : Polygon) (M : mat4) (q : Polygon) :
  spacialTransform p M = Ok q -> ring_ok (exterior q).
Proof.
  unfold spacialTransform.
  destruct (Polygon_of_coords _) as [x|e] eqn:E; [|done].
  intros [= <-]. eapply forceCCW_ring_ok, Polygon_of_coords_ok, E.
Qed.

(** *** Spatial transform *)

Lemma transform_points_identity (r : list point) :
  transform_points identity_mat r = r.
Proof.
  induction r as [|[x y] r IH]; [done|].
  change (transform_points identity_mat ((x, y) :: r))
    with (first_two (row_matmul (homogenize (x, y)) identity_mat)
          :: transform_points identity_mat r).
  rewrite IH. f_equal. simpl. f_equal; ring.
Qed.

(** C10.  Whatever the matrix, the transform of the polygon without
    vertices is returned normally and is the polygon without vertices. *)
Theorem spacialTransform_empty (M : mat4) :
  spacialTransform Polygon_empty M = Ok Polygon_empty.
Proof.
  unfold spacialTransform. simpl. by rewrite forceCCW_empty.
Qed.

(** C8.  Under the identity matrix a polygon comes back as itself up to
    the direction of its ring: the same coordinates (as a multiset, hence
    as a point set) and the same area. *)
Theorem spacialTransform_identity (p : Polygon) :
  ring_ok (exterior p) ->
  exists q,
    spacialTransform p identity_mat = Ok q /\
    Permutation (exterior q) (exterior p) /\
    (forall c, In c (exterior q) <-> In c (exterior p)) /\
    area q = area p.
Proof.
  intros Hok. exists (forceCCW p).
  unfold spacialTransform, get_coordinates.
  rewrite transform_points_identity, (Polygon_of_coords_ring_ok _ Hok).
  destruct p as [r]. simpl.
  pose proof (forceCCW_Permutation (mkPolygon r)) as HP.
  repeat split; [done| | |apply forceCCW_area].
  - intros Hin. eapply Permutation_in; [exact HP|done].
  - intros Hin. eapply Permutation_in; [symmetry; exact HP|done].
Qed.

(** *** Orientation after [__forceCCW] *)

Lemma area_empty : area Polygon_empty = 0.
Proof. apply Qc_is_canon. reflexivity. Qed.

Lemma area_nonneg (p : Polygon) : 0 <= area p.
Proof.
  unfold area. pose proof (Qc_abs_nonneg (signed_area2 (exterior p))) as H.
  unfold Qcle, Qcmult, Q2Qc in *. cbn [this] in *.
  rewrite ?Qred_correct in *. lra.
Qed.

Lemma area_pos_signed (p : Polygon) :
  0 < area p -> signed_area2 (exterior p) <> 0.
Proof.
  intros Hpos Hz. unfold area in Hpos. rewrite Hz in Hpos.
  change (0 < area Polygon_empty) in Hpos. rewrite area_empty in Hpos.
  qc_lra.
Qed.

Lemma forceCCW_never_clockwise (p : Polygon) :
  orientation_agrees (exterior p) -> never_clockwise (forceCCW p).
Proof.
  unfold orientation_agrees, ccw_shoelace. intros Hag.
  assert (Hnn : 0 <= signed_area2 (exterior (forceCCW p))).
  { unfold forceCCW. destruct (is_ccw (exterior p)); simpl.
    - symmetry in Hag. apply bool_decide_eq_true_1 in Hag. qc_lra.
    - symmetry in Hag. apply bool_decide_eq_false_1 in Hag.
      unfold reverse. rewrite signed_area2_rev. qc_lra. }
  split; [done|]. intros Hpos. apply area_pos_signed in Hpos.
  destruct (Qcle_lt_or_eq _ _ Hnn) as [|Heq]; [done|]. congruence.
Qed.

Lemma never_clockwise_empty : never_clockwise Polygon_empty.
Proof.
  split.
  - simpl. qc_lra.
  - rewrite area_empty. intros H. exfalso. qc_lra.
Qed.

(** *** The loop of [andPolygons] *)

Lemma is_empty_Polygon_empty (p : Polygon) :
  is_empty p = true -> p = Polygon_empty.
Proof. destruct p as [[|c r]]; [done|discriminate]. Qed.

Lemma keep_larger_no_piece (m : Geometry) :
  polygonal_piece m = false -> keep_larger Polygon_empty m = Polygon_empty.
Proof.
  unfold polygonal_piece, keep_larger. destruct (as_Polygon m) as [q|]; [|done].
  intros Hq. apply negb_false_iff, is_empty_Polygon_empty in Hq. subst q.
  by case_bool_decide.
Qed.

Lemma fold_keep_larger_no_piece (gs : list Geometry) :
  forallb (fun m => negb (polygonal_piece m)) gs = true ->
  fold_left keep_larger gs Polygon_empty = Polygon_empty.
Proof.
  induction gs as [|m gs IH]; [done|].
  simpl. intros H. apply andb_true_iff in H as [Hm Hgs].
  apply negb_true_iff in Hm. rewrite (keep_larger_no_piece _ Hm). auto.
Qed.

(** The loop returns its starting value or one of the polygons it saw. *)
Lemma fold_keep_larger_In (gs : list Geometry) (acc : Polygon) :
  fold_left keep_larger gs acc = acc \/
  In (GPolygon (fold_left keep_larger gs acc)) gs.
Proof.
  revert acc. induction gs as [|m gs IH]; intros acc; [by left|].
  simpl. destruct (IH (keep_larger acc m)) as [-> | Hin]; [|by right; right].
  unfold keep_larger. destruct m; simpl; auto.
  case_bool_decide; auto.
Qed.

(** The loop over polygons only: either nothing beat the starting value, or
    the result is the first piece of greatest area. *)
Lemma fold_keep_larger_max (ps : list Polygon) (acc : Polygon) :
  (fold_left keep_larger (map GPolygon ps) acc = acc /\
   Forall (fun q => area q <= area acc) ps)
  \/
  (exists l1 p l2,
     ps = l1 ++ p :: l2 /\
     fold_left keep_larger (map GPolygon ps) acc = p /\
     area acc < area p /\
     Forall (fun q => area q < area p) l1 /\
     Forall (fun q => area q <= area p) l2).
Proof.
  revert acc. induction ps as [|q ps IH]; intros acc.
  - left. split; [done|constructor].
  - cbn [map fold_left]. unfold keep_larger at 2 4. cbn [as_Polygon].
    case_bool_decide as Hlt.
    + right.
      destruct (IH q)
        as [[Heq Hall] | (l1 & p & l2 & -> & Hres & Hqp & H1 & H2)].
      * exists [], q, ps. split_and!; try done.
      * exists (q :: l1), p, l2. split_and!; try done.
        { qc_lra. }
        { by constructor. }
    + destruct (IH acc)
        as [[Heq Hall] | (l1 & p & l2 & -> & Hres & Hqp & H1 & H2)].
      * left. split; [done|]. constructor; [|done]. qc_lra.
      * right. exists (q :: l1), p, l2. split_and!; try done.
        constructor; [|done]. qc_lra.
Qed.

(** Every normal return of [andPolygons] is the empty polygon or a piece of
    the overlay result after [__forceCCW]. *)
Lemma andPolygons_shape (p1 p2 : Polygon) (g : Geometry) (q : Polygon) :
  intersection p1 p2 grid_size = Ok g ->
  andPolygons p1 p2 = Ok q ->
  q = Polygon_empty \/ exists x, piece_of g x /\ q = forceCCW x.
Proof.
  intros Hg. unfold andPolygons. rewrite Hg. cbn [bind].
  destruct (as_Polygon g) as [x|] eqn:Ex.
  - intros [= <-]. right. exists x. split; [|done].
    left. destruct g; simpl in Ex; congruence.
  - destruct (geoms g) as [gs|] eqn:Egs; [|intros [= <-]; by left].
    intros [= <-].
    destruct (fold_keep_larger_In gs Polygon_empty) as [-> | Hin].
    + left. apply forceCCW_empty.
    + right. eexists. split; [|done]. right. eauto.
Qed.

(** When the overlay is a single polygon, [andPolygons] hands it back with
    its area unchanged. *)
Lemma andPolygons_single_area (p1 p2 r : Polygon) :
  intersection p1 p2 grid_size = Ok (GPolygon r) ->
  exists q, andPolygons p1 p2 = Ok q /\ area q = area r.
Proof.
  intros Hg. exists (forceCCW r). split; [|apply forceCCW_area].
  unfold andPolygons. by rewrite Hg.
Qed.

(** C1.  When the overlay of the two polygons is not polygonal (empty, or
    made of points and lines only), [andPolygons] returns normally and its
    value is the polygon without vertices. *)
Theorem andPolygons_not_polygonal (p1 p2 : Polygon) (g : Geometry) :
  intersection p1 p2 grid_size = Ok g ->
  not_polygonal g = true ->
  exists q,
    andPolygons p1 p2 = Ok q /\ q = Polygon_empty /\ exterior q = [].
Proof.
  intros Hg Hnp. exists Polygon_empty. split; [|done].
  unfold andPolygons. rewrite Hg. cbn [bind].
  unfold not_polygonal in Hnp.
  destruct (as_Polygon g) as [x|] eqn:Ex.
  - assert (g = GPolygon x) as -> by (destruct g; simpl in Ex; congruence).
    simpl in Hnp. unfold polygonal_piece in Hnp. simpl in Hnp.
    apply negb_true_iff, negb_false_iff, is_empty_Polygon_empty in Hnp.
    subst x. by rewrite forceCCW_empty.
  - destruct (geoms g) as [gs|]; [|done].
    by rewrite fold_keep_larger_no_piece, forceCCW_empty.
Qed.

(** C4.  When the overlay is a collection of polygonal pieces,
    [andPolygons] returns the first piece whose area no other piece
    exceeds: every earlier piece is strictly smaller, no later piece is
    larger.  The piece comes back through [__forceCCW], with its area
    unchanged and, the orientation test being right on the pieces, with a
    counter-clockwise ring. *)
Theorem andPolygons_largest_piece (p1 p2 : Polygon) (ps : list Polygon) :
  intersection p1 p2 grid_size = Ok (GMultiPolygon ps) ->
  Exists (fun q => 0 < area q) ps ->
  Forall (fun q => orientation_agrees (exterior q)) ps ->
  exists l1 p l2,
    ps = l1 ++ p :: l2 /\
    Forall (fun q => area q < area p) l1 /\
    Forall (fun q => area q <= area p) l2 /\
    andPolygons p1 p2 = Ok (forceCCW p) /\
    area (forceCCW p) = area p /\
    0 < signed_area2 (exterior (forceCCW p)).
Proof.
  intros Hg Hex Hag.
  destruct (fold_keep_larger_max ps Polygon_empty)
    as [[_ Hall] | (l1 & p & l2 & Hps & Hres & Hpos & H1 & H2)].
  - exfalso. apply List.Exists_exists in Hex as (q & Hq & Hqpos).
    rewrite List.Forall_forall in Hall. specialize (Hall q Hq).
    rewrite area_empty in Hall. qc_lra.
  - exists l1, p, l2. repeat split; try done.
    + unfold andPolygons. rewrite Hg. cbn [bind as_Polygon geoms].
      by rewrite Hres.
    + apply forceCCW_area.
    + rewrite area_empty in Hpos.
      assert (Hp : orientation_agrees (exterior p)).
      { rewrite List.Forall_forall in Hag. apply Hag. subst ps.
        apply in_or_app. right. by left. }
      apply (forceCCW_never_clockwise p Hp). by rewrite forceCCW_area.
Qed.

(** *** The winding of what the public operations return *)

(** C2 (as amended).  A polygon returned by [get], [spacialTransform] or
    [andPolygons] never has a clockwise boundary (signed area >= 0), and
    its boundary is counter-clockwise (signed area > 0) as soon as it has
    area; this holds where the library's orientation test is right on the
    ring that goes into [__forceCCW].  A ring of zero area comes back with
    zero signed area. *)
Theorem winding_never_clockwise :
  (forall shapes name raw q,
      shapes !! name = Some raw ->
      get shapes name = Ok q ->
      (forall x, Polygon_of_coords raw = Ok x ->
                 orientation_agrees (exterior x)) ->
      never_clockwise q)
  /\
  (forall p M q,
      spacialTransform p M = Ok q ->
      (forall x, Polygon_of_coords (transform_points M (exterior p)) = Ok x ->
                 orientation_agrees (exterior x)) ->
      never_clockwise q)
  /\
  (forall p1 p2 g q,
      intersection p1 p2 grid_size = Ok g ->
      andPolygons p1 p2 = Ok q ->
      (forall x, piece_of g x -> orientation_agrees (exterior x)) ->
      never_clockwise q).
Proof.
  split_and!.
  - intros shapes name raw q Hraw Hget Hag. unfold get in Hget.
    rewrite Hraw in Hget.
    destruct (Polygon_of_coords raw) as [x|e] eqn:Ex; [|done].
    injection Hget as <-. by apply forceCCW_never_clockwise, Hag.
  - intros p M q Hq Hag. unfold spacialTransform, get_coordinates in Hq.
    destruct (Polygon_of_coords _) as [x|e] eqn:Ex; [|done].
    injection Hq as <-. by apply forceCCW_never_clockwise, Hag.
  - intros p1 p2 g q Hg Hq Hag.
    destruct (andPolygons_shape _ _ _ _ Hg Hq) as [-> | (x & Hx & ->)].
    + apply never_clockwise_empty.
    + by apply forceCCW_never_clockwise, Hag.
Qed.

(** *** The outcomes of [get] *)

(** C7 (as amended).  [get] raises [KeyError] for a name that is not in the
    catalog.  For a name that is, the outcome depends only on how many
    points the raw ring has: none give the empty polygon, one or two make
    the constructor raise [ValueError], and three or more always give a
    polygon, the ring closed where needed and passed through [__forceCCW];
    the ring is not checked for self-intersection. *)
Theorem get_outcomes (shapes : gmap string (list point)) (name : string) :
  (shapes !! name = None -> get shapes name = Raise KeyError)
  /\
  (forall raw, shapes !! name = Some raw ->
     (raw = [] -> get shapes name = Ok Polygon_empty) /\
     ((1 <= length raw <= 2)%nat -> get shapes name = Raise ValueError) /\
     ((3 <= length raw)%nat ->
        get shapes name =
          Ok (forceCCW
                (mkPolygon
                   (if needs_closure raw then raw ++ firstn 1 raw
                    else raw))))).
Proof.
  unfold get. split.
  - by intros ->.
  - intros raw ->. split_and!.
    + intros ->. simpl. by rewrite forceCCW_empty.
    + intros Hlen. by rewrite Polygon_of_coords_short.
    + intros Hlen. by rewrite Polygon_of_coords_long.
Qed.

(** ** Further properties of the geometry operations *)

(** *** The mesh of [extrude] *)

Lemma extrude_empty_ring (p : Polygon) (depth : Qc) :
  exterior (forceCCW p) = [] ->
  vertices (extrude p depth) = [] /\
  lines (extrude p depth) = [] /\
  bases (extrude p depth) = [[]; []] /\
  quads (extrude p depth) = [].
Proof. intros H. unfold extrude. rewrite H. by cbn. Qed.

(** The fields of [extrude] on a ring of [N] vertices and a closing
    coordinate. *)
Lemma extrude_fields (p : Polygon) (depth : Qc) (N : nat) :
  length (exterior (forceCCW p)) = S N ->
  let ext := firstn N (exterior (forceCCW p)) in
  let n := Z.of_nat N in
  vertices (extrude p depth) =
    map (fun '(x, y) => (x, y, 0)) (rev ext)
    ++ map (fun '(x, y) => (x, y, depth)) ext /\
  lines (extrude p depth) =
    map (fun i => (i, (i - 1) mod n)%Z) (range n)
    ++ map (fun i => (i + n, ((i - 1) mod n) + n)%Z) (range n)
    ++ map (fun i => (i, - i + (2 * n - 1))%Z) (range n) /\
  bases (extrude p depth) =
    [range n; map (fun i => (i + n)%Z) (range n)] /\
  quads (extrude p depth) =
    map (fun i => (i, (i - 1) mod n, ((- i) mod n) + n,
                   ((- i - 1) mod n) + n)%Z) (range n) /\
  length ext = N.
Proof.
  intros Hlen ext n. unfold extrude, count_coordinates, get_coordinates.
  rewrite Hlen. replace (Z.of_nat (S N) - 1)%Z with n by lia.
  assert (slice_to (exterior (forceCCW p)) n = ext) as ->.
  { unfold slice_to. destruct (n <? 0)%Z eqn:E; [apply Z.ltb_lt in E; lia|].
    subst ext n. by rewrite Nat2Z.id. }
  cbn [vertices lines bases quads]. split_and!; try done.
  subst ext. rewrite length_firstn. lia.
Qed.

Lemma extrude_vertices_length (p : Polygon) (depth : Qc) (N : nat) :
  length (exterior (forceCCW p)) = S N ->
  length (vertices (extrude p depth)) = (2 * N)%nat.
Proof.
  intros Hlen. destruct (extrude_fields p depth N Hlen) as (-> & _ & _ & _ & He).
  rewrite length_app, !length_map, length_rev. unfold point in *. lia.
Qed.

(** X1.  Every index that [extrude] writes into [lines], [bases] and
    [quads] is a position of its own [vertices] list. *)
Theorem extrude_indices_in_range (p : Polygon) (depth : Qc) :
  let prism := extrude p depth in
  let n := length (vertices prism) in
  Forall (fun l => index_ok n l.1 /\ index_ok n l.2) (lines prism) /\
  Forall (Forall (index_ok n)) (bases prism) /\
  Forall (fun '(bl, br, tr, tl) =>
            index_ok n bl /\ index_ok n br /\ index_ok n tr /\ index_ok n tl)
         (quads prism).
Proof.
  intros prism n. subst prism n.
  destruct (exterior (forceCCW p)) as [|c r] eqn:E.
  - destruct (extrude_empty_ring p depth E) as (-> & -> & -> & ->).
    repeat constructor.
  - assert (Hlen : length (exterior (forceCCW p)) = S (length r))
      by (by rewrite E).
    rewrite (extrude_vertices_length p depth _ Hlen).
    destruct (extrude_fields p depth _ Hlen) as (_ & -> & -> & -> & _).
    set (N := Z.of_nat (length r)).
    assert (Hmod : forall i k, In i (range N) -> (0 <= k mod N < N)%Z).
    { intros i k Hi. apply In_range in Hi. apply Z.mod_pos_bound. lia. }
    unfold index_ok. split_and!.
    + rewrite !List.Forall_app. split_and!; apply List.Forall_forall;
        intros l Hl; apply in_map_iff in Hl as (i & <- & Hi);
        pose proof (Hmod i (i - 1)%Z Hi); apply In_range in Hi;
        cbn [fst snd]; lia.
    + repeat constructor; apply List.Forall_forall; intros i Hi.
      * apply In_range in Hi. lia.
      * apply in_map_iff in Hi as (k & <- & Hk). apply In_range in Hk. lia.
    + apply List.Forall_forall. intros q Hq.
      apply in_map_iff in Hq as (i & <- & Hi).
      pose proof (Hmod i (i - 1)%Z Hi). pose proof (Hmod i (- i)%Z Hi).
      pose proof (Hmod i (- i - 1)%Z Hi). apply In_range in Hi. lia.
Qed.

(** Where the ring coordinates sit in the vertex list: coordinate [j] is
    bottom vertex [N - 1 - j] and top vertex [N + j]. *)
Lemma extrude_vertex_layout (ring : list point) (depth : Qc) (N j : nat)
    (a : point) :
  (N <= length ring)%nat -> (j < N)%nat -> nth_error ring j = Some a ->
  let ext := firstn N ring in
  let vs := map (fun '(x, y) => (x, y, 0)) (rev ext)
            ++ map (fun '(x, y) => (x, y, depth)) ext in
  nth_error vs (N - 1 - j) = Some (a.1, a.2, 0) /\
  nth_error vs (N + j) = Some (a.1, a.2, depth).
Proof.
  intros HN Hj Ha ext vs.
  assert (He : length ext = N) by (subst ext; rewrite length_firstn; lia).
  assert (Hext : nth_error ext j = Some a).
  { subst ext. rewrite nth_error_firstn.
    destruct (Nat.ltb_spec j N); [done|lia]. }
  destruct a as [x y]. subst vs. unfold point in *. split.
  - rewrite nth_error_app1 by (rewrite length_map, length_rev; lia).
    rewrite nth_error_map, nth_error_rev, He.
    destruct (Nat.ltb_spec (N - 1 - j) N); [|lia].
    replace (N - S (N - 1 - j))%nat with j by lia. by rewrite Hext.
  - rewrite nth_error_app2 by (rewrite length_map, length_rev; lia).
    rewrite length_map, length_rev, He.
    replace (N + j - N)%nat with j by lia.
    by rewrite nth_error_map, Hext.
Qed.

(** X2.  Every side quad of [extrude] is a wall over one edge of the ring
    it extrudes: bottom-left and top-left corner share the x and y of one
    ring coordinate, bottom-right and top-right those of the next one, the
    bottom corners at height 0 and the top corners at height [depth]. *)
Theorem extrude_quads_are_walls (p : Polygon) (depth : Qc) :
  let prism := extrude p depth in
  Forall (quad_is_wall (vertices prism) (exterior (polygon prism)) depth)
         (quads prism).
Proof.
  intros prism. subst prism.
  assert (Hpoly : polygon (extrude p depth) = forceCCW p) by done.
  rewrite Hpoly.
  destruct (exterior (forceCCW p)) as [|c r] eqn:E.
  - destruct (extrude_empty_ring p depth E) as (_ & _ & _ & ->). constructor.
  - assert (Hlen : length (exterior (forceCCW p)) = S (length r))
      by (by rewrite E).
    destruct (extrude_fields p depth _ Hlen) as (-> & _ & _ & -> & _).
    rewrite E. set (ring := c :: r). set (N := length r).
    assert (HN : (N <= length ring)%nat) by (subst ring N; simpl; lia).
    apply List.Forall_forall. intros q Hq.
    apply in_map_iff in Hq as (i & <- & Hi). apply In_range in Hi.
    set (k := Z.to_nat i).
    assert (Hk : (k < N)%nat) by lia.
    set (j := (N - 1 - k)%nat).
    set (j' := (S j mod N)%nat).
    assert (Hj' : (j' < N)%nat) by (apply Nat.mod_upper_bound; lia).
    destruct (nth_error ring j) as [a|] eqn:Ea;
      [|apply nth_error_None in Ea; lia].
    destruct (nth_error ring j') as [b|] eqn:Eb;
      [|apply nth_error_None in Eb; lia].
    destruct (extrude_vertex_layout ring depth N j a HN ltac:(lia) Ea)
      as [Hbl Htl].
    destruct (extrude_vertex_layout ring depth N j' b HN Hj' Eb)
      as [Hbr Htr].
    unfold quad_is_wall. exists j, a, b.
    replace (length ring - 1)%nat with N by (subst ring N; simpl; lia).
    fold j'. unfold vertex_at. split_and!; try done.
    + replace (Z.to_nat i) with (N - 1 - j)%nat by lia. exact Hbl.
    + rewrite (mod_wrap_down (- i - 1)) by lia.
      replace (Z.to_nat (- i - 1 + Z.of_nat N + Z.of_nat N)) with (N + j)%nat
        by lia.
      exact Htl.
    + destruct (Z.eq_dec i 0%Z) as [Hz|Hnz].
      * assert (j' = 0%nat) as Hj0.
        { subst j' j. replace (S (N - 1 - k)) with N by lia.
          apply Nat.Div0.mod_same. }
        rewrite Hj0 in Hbr. rewrite Hz, (mod_wrap_down (0 - 1)) by lia.
        replace (Z.to_nat (0 - 1 + Z.of_nat N)) with (N - 1 - 0)%nat by lia.
        exact Hbr.
      * assert (j' = S j) as Hj1.
        { subst j'. apply Nat.mod_small. lia. }
        rewrite Hj1 in Hbr. rewrite Z.mod_small by lia.
        replace (Z.to_nat (i - 1)) with (N - 1 - S j)%nat by lia.
        exact Hbr.
    + destruct (Z.eq_dec i 0%Z) as [Hz|Hnz].
      * assert (j' = 0%nat) as Hj0.
        { subst j' j. replace (S (N - 1 - k)) with N by lia.
          apply Nat.Div0.mod_same. }
        rewrite Hj0 in Htr. rewrite Hz. change (- 0)%Z with 0%Z.
        rewrite Z.mod_0_l by lia.
        replace (Z.to_nat (0 + Z.of_nat N)) with (N + 0)%nat by lia.
        exact Htr.
      * assert (j' = S j) as Hj1.
        { subst j'. apply Nat.mod_small. lia. }
        rewrite Hj1 in Htr. rewrite (mod_wrap_down (- i)) by lia.
        replace (Z.to_nat (- i + Z.of_nat N + Z.of_nat N)) with (N + S j)%nat
          by lia.
        exact Htr.
Qed.

(** X3.  Every line of the wireframe of [extrude] is an edge of the prism:
    a ring edge on the bottom cap, a ring edge on the top cap, or an
    upright joining the bottom and the top vertex over one coordinate. *)
Theorem extrude_lines_are_edges (p : Polygon) (depth : Qc) :
  let prism := extrude p depth in
  Forall (line_is_edge (vertices prism) (exterior (polygon prism)) depth)
         (lines prism).
Proof.
  intros prism. subst prism.
  assert (Hpoly : polygon (extrude p depth) = forceCCW p) by done.
  rewrite Hpoly.
  destruct (exterior (forceCCW p)) as [|c r] eqn:E.
  - destruct (extrude_empty_ring p depth E) as (_ & -> & _ & _). constructor.
  - assert (Hlen : length (exterior (forceCCW p)) = S (length r))
      by (by rewrite E).
    destruct (extrude_fields p depth _ Hlen) as (-> & -> & _ & _ & _).
    rewrite E. set (ring := c :: r). set (N := length r).
    assert (HN : (N <= length ring)%nat) by (subst ring N; simpl; lia).
    assert (HN1 : (length ring - 1)%nat = N) by (subst ring N; simpl; lia).
    assert (Hget : forall j, (j < N)%nat -> exists a, nth_error ring j = Some a).
    { intros j Hj. destruct (nth_error ring j) as [a|] eqn:Ea; [eauto|].
      apply nth_error_None in Ea. lia. }
    assert (Hnext : forall j, (S j < N)%nat -> (S j mod N = S j)%nat)
      by (intros; apply Nat.mod_small; lia).
    assert (Hwrap : forall j, S j = N -> (S j mod N = 0)%nat)
      by (intros j ->; apply Nat.Div0.mod_same).
    unfold line_is_edge, vertex_at. rewrite HN1.
    rewrite !List.Forall_app. split_and!; apply List.Forall_forall;
      intros l Hl; apply in_map_iff in Hl as (i & <- & Hi);
      apply In_range in Hi; cbn [fst snd].
    + (* bottom ring *)
      set (j := (N - 1 - Z.to_nat i)%nat).
      assert (Hj' : (S j mod N < N)%nat) by (apply Nat.mod_upper_bound; lia).
      destruct (Hget j ltac:(lia)) as [a Ea].
      destruct (Hget _ Hj') as [b Eb].
      destruct (extrude_vertex_layout ring depth N j a HN ltac:(lia) Ea)
        as [Ha _].
      destruct (extrude_vertex_layout ring depth N _ b HN Hj' Eb) as [Hb _].
      exists j, a, b. split_and!; try done. left. split.
      * replace (Z.to_nat i) with (N - 1 - j)%nat by lia. exact Ha.
      * destruct (Z.eq_dec i 0%Z) as [Hz|Hnz].
        -- rewrite (Hwrap j) in Hb by lia.
           rewrite Hz, (mod_wrap_down (0 - 1)) by lia.
           replace (Z.to_nat (0 - 1 + Z.of_nat N)) with (N - 1 - 0)%nat by lia.
           exact Hb.
        -- rewrite (Hnext j) in Hb by lia. rewrite Z.mod_small by lia.
           replace (Z.to_nat (i - 1)) with (N - 1 - S j)%nat by lia.
           exact Hb.
    + (* top ring *)
      set (j := Z.to_nat ((i - 1) mod Z.of_nat N)).
      assert (Hjb : (0 <= (i - 1) mod Z.of_nat N < Z.of_nat N)%Z)
        by (apply Z.mod_pos_bound; lia).
      assert (Hj' : (S j mod N < N)%nat) by (apply Nat.mod_upper_bound; lia).
      destruct (Hget j ltac:(lia)) as [a Ea].
      destruct (Hget _ Hj') as [b Eb].
      destruct (extrude_vertex_layout ring depth N j a HN ltac:(lia) Ea)
        as [_ Ha].
      destruct (extrude_vertex_layout ring depth N _ b HN Hj' Eb) as [_ Hb].
      exists j, a, b. split_and!; try done. right. left. split.
      * destruct (Z.eq_dec i 0%Z) as [Hz|Hnz].
        -- assert (S j = N) as HS.
           { subst j. rewrite Hz, (mod_wrap_down (0 - 1)) by lia. lia. }
           rewrite (Hwrap j HS) in Hb.
           replace (Z.to_nat (i + Z.of_nat N)) with (N + 0)%nat by lia.
           exact Hb.
        -- assert (S j = Z.to_nat i) as HS.
           { subst j. rewrite Z.mod_small by lia. lia. }
           rewrite (Hnext j) in Hb by lia.
           replace (Z.to_nat (i + Z.of_nat N)) with (N + S j)%nat by lia.
           exact Hb.
      * replace (Z.to_nat ((i - 1) mod Z.of_nat N + Z.of_nat N))
          with (N + j)%nat by lia.
        exact Ha.
    + (* uprights *)
      set (j := (N - 1 - Z.to_nat i)%nat).
      assert (Hj' : (S j mod N < N)%nat) by (apply Nat.mod_upper_bound; lia).
      destruct (Hget j ltac:(lia)) as [a Ea].
      destruct (Hget _ Hj') as [b Eb].
      destruct (extrude_vertex_layout ring depth N j a HN ltac:(lia) Ea)
        as [Ha Ha'].
      exists j, a, b. split_and!; try done. right. right. split.
      * replace (Z.to_nat i) with (N - 1 - j)%nat by lia. exact Ha.
      * replace (Z.to_nat (- i + (2 * Z.of_nat N - 1))) with (N + j)%nat
          by lia.
        exact Ha'.
Qed.

(** *** [spacialTransform] and area *)





(** X5.  Only six entries of the matrix reach the result of
    [spacialTransform]: the x and y columns of rows 0, 1 and 3.  The z row
    and the z and w columns (so, for a pose matrix, the shift along z)
    have no effect. *)
Theorem spacialTransform_planar_part (p : Polygon) (M M' : mat4) :
  planar_part M = planar_part M' ->
  spacialTransform p M = spacialTransform p M'.
Proof.
  intros HM. unfold spacialTransform, get_coordinates.
  assert (transform_points M (exterior p) = transform_points M' (exterior p))
    as ->; [|done].
  unfold transform_points. apply map_ext. intros [x y].
  destruct M as [[[[[[a0 a1] a2] a3] [[[b0 b1] b2] b3]]
                    [[[c0 c1] c2] c3]] [[[d0 d1] d2] d3]].
  destruct M' as [[[[[[a0' a1'] a2'] a3'] [[[b0' b1'] b2'] b3']]
                     [[[c0' c1'] c2'] c3']] [[[d0' d1'] d2'] d3']].
  simpl in HM. injection HM as -> -> -> -> -> ->.
  simpl. f_equal; ring.
Qed.

(** *** [andPolygons] on any overlay result *)

Lemma fold_keep_larger_upper (gs : list Geometry) (acc : Polygon) :
  area acc <= area (fold_left keep_larger gs acc) /\
  forall x, In (GPolygon x) gs -> area x <= area (fold_left keep_larger gs acc).
Proof.
  revert acc. induction gs as [|m gs IH]; intros acc.
  - cbn [fold_left]. split; [apply Qcle_refl|]. intros x [].
  - cbn [fold_left]. destruct (IH (keep_larger acc m)) as [Hacc Hall].
    assert (Hstep : area acc <= area (keep_larger acc m)).
    { unfold keep_larger. destruct (as_Polygon m); [|qc_lra].
      case_bool_decide; qc_lra. }
    split; [qc_lra|].
    intros x [->|Hin]; [|by apply Hall].
    assert (area x <= area (keep_larger acc (GPolygon x))).
    { unfold keep_larger. cbn [as_Polygon]. case_bool_decide; qc_lra. }
    qc_lra.
Qed.

(** X6.  [andPolygons] raises exactly what the overlay raises.  When the
    overlay returns, [andPolygons] returns too, and its value is either
    the empty polygon or one of the polygons of the overlay result (the
    result itself or one of its parts) passed through [__forceCCW]; no
    polygon of the overlay result has a larger area. *)
Theorem andPolygons_outcome (p1 p2 : Polygon) :
  match intersection p1 p2 grid_size with
  | Raise e => andPolygons p1 p2 = Raise e
  | Ok g =>
      exists q,
        andPolygons p1 p2 = Ok q /\
        (q = Polygon_empty \/ exists x, piece_of g x /\ q = forceCCW x) /\
        (forall x, piece_of g x -> area x <= area q)
  end.
Proof.
  destruct (intersection p1 p2 grid_size) as [g|e] eqn:Hg;
    [|unfold andPolygons; by rewrite Hg].
  assert (Hq : exists q, andPolygons p1 p2 = Ok q).
  { unfold andPolygons. rewrite Hg. cbn [bind].
    destruct (as_Polygon g); [eauto|]. destruct (geoms g); eauto. }
  destruct Hq as [q Hq]. exists q. split; [done|].
  split; [exact (andPolygons_shape _ _ _ _ Hg Hq)|].
  intros x Hx. unfold andPolygons in Hq. rewrite Hg in Hq. cbn [bind] in Hq.
  destruct Hx as [-> | (gs & Hgs & Hin)].
  - cbn [as_Polygon] in Hq. injection Hq as <-. rewrite forceCCW_area. qc_lra.
  - assert (as_Polygon g = None) as Hnone.
    { destruct g; simpl in Hgs |- *; congruence. }
    rewrite Hnone, Hgs in Hq. injection Hq as <-. rewrite forceCCW_area.
    by apply fold_keep_larger_upper.
Qed.

(** *** The catalog: [allShapes], [randomShape] and [get] *)

Lemma Polygon_of_coords_raises (cs : list point) (e : exn) :
  Polygon_of_coords cs = Raise e -> e = ValueError.
Proof.
  destruct cs as [|a t]; [done|].
  unfold Polygon_of_coords, linearrings.
  destruct (_ <? 4)%nat; [|done]. by intros [= <-].
Qed.

Lemma get_KeyError_iff (shapes : gmap string (list point)) (name : string) :
  get shapes name = Raise KeyError <-> shapes !! name = None.
Proof.
  unfold get. destruct (shapes !! name) as [raw|]; [|done].
  split; [|done].
  destruct (Polygon_of_coords raw) as [x|e] eqn:E; [done|].
  apply Polygon_of_coords_raises in E as ->. done.
Qed.

Lemma In_allShapes (shapes : gmap string (list point)) (name : string) :
  In name (allShapes shapes) <-> is_Some (shapes !! name).
Proof.
  unfold allShapes. rewrite <- list_elem_of_In, list_elem_of_fmap. split.
  - intros ([k raw] & -> & Hin). apply elem_of_map_to_list in Hin. eauto.
  - intros [raw Hraw]. exists (name, raw). split; [done|].
    by apply elem_of_map_to_list.
Qed.

Lemma allShapes_get_length (shapes : gmap string (list point)) :
  length (allShapes shapes) = size shapes.
Proof. unfold allShapes. by rewrite length_fmap, length_map_to_list. Qed.

(** X7.  [allShapes] lists every name of the catalog once, and the names
    it lists are exactly those for which [get] does not raise
    [KeyError]. *)
Theorem allShapes_get (shapes : gmap string (list point)) :
  NoDup (allShapes shapes) /\
  length (allShapes shapes) = size shapes /\
  forall name,
    In name (allShapes shapes) <-> get shapes name <> Raise KeyError.
Proof.
  split_and!.
  - apply NoDup_fst_map_to_list.
  - apply allShapes_get_length.
  - intros name. rewrite In_allShapes, get_KeyError_iff.
    rewrite <- not_eq_None_Some. done.
Qed.

(** X8.  [randomShape] raises [IndexError] on an empty catalog.  On any
    other catalog every index the generator can draw gives a name, and a
    name given by [randomShape] is a name of the catalog: [get] does not
    raise [KeyError] on it. *)
Theorem randomShape_get (shapes : gmap string (list point)) (k : nat) :
  (shapes = ∅ -> randomShape shapes k = Py.Raise Py.IndexError) /\
  ((k < size shapes)%nat -> exists name, randomShape shapes k = Py.Ok name) /\
  (forall name,
     randomShape shapes k = Py.Ok name ->
     In name (allShapes shapes) /\ get shapes name <> Raise KeyError).
Proof.
  assert (Hlen : length (allShapes shapes) = size shapes)
    by apply allShapes_get_length.
  split_and!.
  - intros ->. reflexivity.
  - intros Hk. unfold randomShape, choice.
    destruct (allShapes shapes) as [|n0 l] eqn:El; [simpl in Hlen; lia|].
    destruct (nth_error (n0 :: l) k) as [name|] eqn:E; [eauto|].
    apply nth_error_None in E. lia.
  - intros name. unfold randomShape, choice.
    destruct (allShapes shapes) as [|n0 l] eqn:El; [done|].
    destruct (nth_error (n0 :: l) k) as [x|] eqn:E; [|done].
    intros [= ->]. apply nth_error_In in E.
    split; [done|]. rewrite get_KeyError_iff.
    rewrite <- El in E. apply In_allShapes in E. by apply not_eq_None_Some.
Qed.

(** *** One pass of the game loop *)

Lemma andPolygons_no_piece (p1 p2 : Polygon) (g : Geometry) :
  intersection p1 p2 grid_size = Ok g ->
  not_polygonal g = true ->
  andPolygons p1 p2 = Ok Polygon_empty.
Proof.
  intros Hg Hnp. unfold andPolygons. rewrite Hg. cbn [bind].
  unfold not_polygonal in Hnp.
  destruct (as_Polygon g) as [x|] eqn:Ex.
  - assert (g = GPolygon x) as -> by (destruct g; simpl in Ex; congruence).
    simpl in Hnp. unfold polygonal_piece in Hnp. simpl in Hnp.
    apply negb_true_iff, negb_false_iff, is_empty_Polygon_empty in Hnp.
    subst x. by rewrite forceCCW_empty.
  - destruct (geoms g) as [gs|]; [|done].
    by rewrite fold_keep_larger_no_piece, forceCCW_empty.
Qed.

Lemma gamePage_frame_unfold (g : Game) (inp : FrameInput) :
  gamePage_frame g inp =
  let tower := frame_tower g in
  let timer := (VerticalTimer_update rnd (g_timer g) (f_dt inp)).1 in
  bind (if f_clicked inp then gamePage_click g inp tower timer
        else Ok (g_control g, tower, g_forward g, g_colIndex g, timer))
    (fun '(control, tower', forward, colIndex, timer') =>
  let gameover :=
    (length (vertices control) <? 3)%nat
    || (lives_num (g_lives g) =? 0)%Z
    || g_gameover g in
  let lives :=
    if restarted timer' then killLife (g_lives g) else g_lives g in
  let score :=
    if f_clicked inp && negb gameover then (g_score g + 1)%Z
    else g_score g in
  Ok (mkGame control tower' (g_towerBase g) forward colIndex score
             lives timer' gameover)).
Proof. reflexivity. Qed.

(** The pre-render step leaves at most 7 prisms to draw. *)
Lemma frame_tower_length (g : Game) :
  (length (g_tower g) <= 8)%nat -> (length (frame_tower g) <= 7)%nat.
Proof.
  intros H. unfold frame_tower.
  destruct (Nat.ltb_spec 7 (length (g_tower g))).
  - rewrite length_skipn. lia.
  - lia.
Qed.

Lemma gamePage_click_tower (g : Game) (inp : FrameInput) (tower : list Prism)
    (timer : VerticalTimer) control tower' forward colIndex timer' :
  gamePage_click g inp tower timer
  = Ok (control, tower', forward, colIndex, timer') ->
  tower' = tower ++ [control] /\
  forward = negb (g_forward g) /\
  colIndex = ((g_colIndex g + 1) mod Z.of_nat (length blockColors))%Z /\
  timer' = VerticalTimer_reset timer.
Proof.
  unfold gamePage_click.
  destruct (if (length tower =? 0)%nat then _ else _) as [nb|]; [|done].
  cbn [bind].
  destruct (spacialTransform _ _) as [nc|]; [|done]. cbn [bind].
  destruct (andPolygons nb nc) as [shape|]; [|done]. cbn [bind].
  by intros [= <- <- <- <- <-].
Qed.

(** A pass of the game loop keeps [Game_inv]; after a click the new
    control prism is the top of the tower, without one the control prism
    and the score stay. *)
Lemma gamePage_frame_keeps_inv (g g' : Game) (inp : FrameInput) :
  Game_inv g ->
  gamePage_frame g inp = Ok g' ->
  Game_inv g' /\
  (f_clicked inp = true ->
   exists below, (length below <= 7)%nat /\
                 g_tower g' = below ++ [g_control g']) /\
  (f_clicked inp = false ->
   g_control g' = g_control g /\ g_score g' = g_score g /\
   (length (g_tower g') <= 7)%nat).
Proof.
  intros (Ht & Hc & Hl) Hf. rewrite gamePage_frame_unfold in Hf.
  cbv zeta in Hf.
  pose proof (frame_tower_length _ Ht) as Hpre.
  set (tower := frame_tower g) in *.
  set (timer := (VerticalTimer_update rnd (g_timer g) (f_dt inp)).1) in *.
  assert (Hlives : forall b : bool,
            (0 <= lives_num (if b then killLife (g_lives g) else g_lives g)
             <= lives_max (if b then killLife (g_lives g) else g_lives g))%Z).
  { intros []; [|done]. unfold killLife. cbn. lia. }
  destruct (f_clicked inp) eqn:Eclick.
  - destruct (gamePage_click g inp tower timer)
      as [[[[[control tower'] forward] colIndex] timer']|] eqn:Ek; [|done].
    cbn [bind] in Hf. injection Hf as <-.
    destruct (gamePage_click_tower _ _ _ _ _ _ _ _ _ Ek)
      as (-> & -> & -> & ->).
    pose proof (Z.mod_pos_bound (g_colIndex g + 1)
                  (Z.of_nat (length blockColors)) ltac:(cbn; lia)) as Hmod.
    split; [|split].
    + unfold Game_inv. cbn [g_tower g_colIndex g_lives].
      split; [rewrite length_app; cbn; lia|]. split; [exact Hmod|].
      apply Hlives.
    + intros _. exists tower. by cbn.
    + done.
  - cbn [bind] in Hf. injection Hf as <-.
    split; [|split].
    + unfold Game_inv. cbn [g_tower g_colIndex g_lives].
      split; [lia|]. split; [exact Hc|]. apply Hlives.
    + done.
    + intros _. cbn. split_and!; [done|done|lia].
Qed.

(** X19.  In every round, after any number of passes of the game loop,
    the tower holds at most 8 prisms (so at most 7 after the pre-render
    step), the colour index is a position of [blockColors], and the number
    of lives lies between 0 and 3. *)
Theorem gamePage_run_invariant (control : Prism) (barHeight : Z)
    (inps : list FrameInput) (g' : Game) :
  gamePage_run (gamePage_start rnd control barHeight) inps = Ok g' ->
  (length (g_tower g') <= 8)%nat /\
  (length (frame_tower g') <= 7)%nat /\
  (0 <= g_colIndex g' < Z.of_nat (length blockColors))%Z /\
  (0 <= lives_num (g_lives g') <= 3)%Z.
Proof.
  assert (Hstart : Game_inv (gamePage_start rnd control barHeight) /\
                   lives_max (g_lives (gamePage_start rnd control barHeight)) = 3%Z).
  { unfold Game_inv. cbn. split_and!; lia. }
  assert (Hrun : forall inps g, Game_inv g /\ lives_max (g_lives g) = 3%Z ->
            gamePage_run g inps = Ok g' ->
            Game_inv g' /\ lives_max (g_lives g') = 3%Z).
  { clear. induction inps as [|inp rest IH]; intros g Hg; cbn [gamePage_run].
    - by intros [= <-].
    - destruct (g_gameover g); [by intros [= <-]|].
      destruct (gamePage_frame g inp) as [g1|] eqn:E; [|done].
      cbn [bind]. apply IH. destruct Hg as [Hinv Hmax].
      split; [by eapply gamePage_frame_keeps_inv|].
      rewrite gamePage_frame_unfold in E. cbv zeta in E.
      destruct (if f_clicked inp then _ else _)
        as [[[[[c tw] fw] ci] tm]|]; [|done].
      cbn [bind] in E. injection E as <-. cbn [g_lives].
      by destruct (restarted tm). }
  intros Hr. destruct (Hrun inps _ Hstart Hr) as [(H1 & H2 & H3) Hmax].
  split_and!; try done; try lia.
  by apply frame_tower_length.
Qed.

Lemma gamePage_frame_click (g : Game) (inp : FrameInput)
    (newBase newControl shape : Polygon) :
  f_clicked inp = true ->
  spacialTransform (click_base_polygon g) (click_base_matrix g inp)
  = Ok newBase ->
  spacialTransform (polygon (g_control g)) (f_controlMat inp)
  = Ok newControl ->
  andPolygons newBase newControl = Ok shape ->
  let control := extrude shape 1 in
  let timer' :=
    VerticalTimer_reset (VerticalTimer_update rnd (g_timer g) (f_dt inp)).1 in
  let gameover :=
    (length (vertices control) <? 3)%nat
    || (lives_num (g_lives g) =? 0)%Z
    || g_gameover g in
  gamePage_frame g inp =
  Ok (mkGame control (frame_tower g ++ [control]) (g_towerBase g)
        (negb (g_forward g))
        ((g_colIndex g + 1) mod Z.of_nat (length blockColors))%Z
        (if negb gameover then (g_score g + 1)%Z else g_score g)
        (if restarted timer' then killLife (g_lives g) else g_lives g)
        timer' gameover).
Proof.
  intros Hclick Hb Hc Hs control timer' gameover.
  rewrite gamePage_frame_unfold. cbv zeta. rewrite Hclick.
  assert (Hk : gamePage_click g inp (frame_tower g)
                 (VerticalTimer_update rnd (g_timer g) (f_dt inp)).1
               = Ok (control, frame_tower g ++ [control], negb (g_forward g),
                     ((g_colIndex g + 1) mod Z.of_nat (length blockColors))%Z,
                     timer')).
  { unfold gamePage_click.
    unfold click_base_polygon, click_base_matrix in Hb.
    destruct (length (frame_tower g) =? 0)%nat; rewrite Hb; cbn [bind];
      rewrite Hc; cbn [bind]; rewrite Hs; done. }
  rewrite Hk. reflexivity.
Qed.

(** X20.  A click that misses ends the round: when the overlay of the
    transformed base and the transformed control block is not polygonal,
    the pass returns normally, the new control prism has no vertices, the
    round is over and the score is not raised. *)
Theorem gamePage_miss_ends_round (g : Game) (inp : FrameInput)
    (newBase newControl : Polygon) (geom : Geometry) :
  f_clicked inp = true ->
  spacialTransform (click_base_polygon g) (click_base_matrix g inp)
  = Ok newBase ->
  spacialTransform (polygon (g_control g)) (f_controlMat inp)
  = Ok newControl ->
  intersection newBase newControl grid_size = Ok geom ->
  not_polygonal geom = true ->
  exists g',
    gamePage_frame g inp = Ok g' /\
    vertices (g_control g') = [] /\
    g_gameover g' = true /\
    g_score g' = g_score g.
Proof.
  intros Hclick Hb Hc Hg Hnp.
  pose proof (andPolygons_no_piece _ _ _ Hg Hnp) as Hs.
  rewrite (gamePage_frame_click g inp _ _ _ Hclick Hb Hc Hs).
  eexists. split; [reflexivity|].
  assert (Hv : vertices (extrude Polygon_empty 1) = []).
  { apply extrude_empty_ring. by rewrite forceCCW_empty. }
  cbn [g_control g_gameover g_score]. rewrite Hv. by cbn.
Qed.

(** X21.  A click that hits scores: when the round is not over, a life is
    left and [andPolygons] returns a polygon whose ring has at least three
    coordinates, the pass returns normally, the round goes on, the score
    goes up by exactly one, and the new control prism is the extrusion of
    that polygon, laid on top of the tower. *)
Theorem gamePage_hit_scores (g : Game) (inp : FrameInput)
    (newBase newControl shape : Polygon) :
  f_clicked inp = true ->
  g_gameover g = false ->
  lives_num (g_lives g) <> 0%Z ->
  spacialTransform (click_base_polygon g) (click_base_matrix g inp)
  = Ok newBase ->
  spacialTransform (polygon (g_control g)) (f_controlMat inp)
  = Ok newControl ->
  andPolygons newBase newControl = Ok shape ->
  (3 <= length (exterior shape))%nat ->
  exists g',
    gamePage_frame g inp = Ok g' /\
    g_gameover g' = false /\
    g_score g' = (g_score g + 1)%Z /\
    g_control g' = extrude shape 1 /\
    g_tower g' = frame_tower g ++ [extrude shape 1].
Proof.
  intros Hclick Hover Hlives Hb Hc Hs Hlen.
  rewrite (gamePage_frame_click g inp _ _ _ Hclick Hb Hc Hs).
  eexists. split; [reflexivity|].
  assert (Hv : (length (vertices (extrude shape 1)) <? 3)%nat = false).
  { apply Nat.ltb_ge.
    destruct (length (exterior shape)) as [|N] eqn:E; [lia|].
    rewrite (extrude_vertices_length shape 1 N); [lia|].
    by rewrite forceCCW_length. }
  cbn [g_control g_gameover g_score g_tower].
  rewrite Hv, Hover. apply Z.eqb_neq in Hlives. rewrite Hlives. by cbn.
Qed.

End Polygons.

(** ** The properties on concrete input

    The library parameters are instantiated with the documented orientation
    test [ccw_shoelace] and with stand-ins for the overlay, the hull and
    the equality test. *)

Example extrude_square_lines :
  lines (extrude ccw_shoelace hull_of_empty both_empty unit_square 1) =
  [(0, 3); (1, 0); (2, 1); (3, 2);
   (4, 7); (5, 4); (6, 5); (7, 6);
   (0, 7); (1, 6); (2, 5); (3, 4)]%Z.
Proof. reflexivity. Qed.

Example extrude_square_quads :
  quads (extrude ccw_shoelace hull_of_empty both_empty unit_square 1) =
  [(0, 3, 4, 7); (1, 0, 7, 6); (2, 1, 6, 5); (3, 2, 5, 4)]%Z.
Proof. reflexivity. Qed.

Example extrude_square_bases :
  bases (extrude ccw_shoelace hull_of_empty both_empty unit_square 1) =
  [[0; 1; 2; 3]; [4; 5; 6; 7]]%Z.
Proof. reflexivity. Qed.

Example extrude_clockwise_square_polygon :
  polygon (extrude ccw_shoelace hull_of_empty both_empty unit_square_cw 1) =
  unit_square.
Proof. reflexivity. Qed.

Lemma extrude_topology_witness :
  (3 <= 4)%nat /\
  length (exterior unit_square) = 5%nat /\
  let prism := extrude ccw_shoelace hull_of_empty both_empty unit_square 1 in
  length (vertices prism) = (2 * 4)%nat /\
  length (lines prism) = (3 * 4)%nat /\
  length (bases prism) = 2%nat /\
  Forall (fun face => length face = 4%nat) (bases prism) /\
  length (quads prism) = 4%nat /\
  Forall quad_distinct (quads prism).
Proof.
  split; [lia|]. split; [reflexivity|].
  apply (extrude_topology ccw_shoelace hull_of_empty both_empty
           unit_square 1 4); [lia|reflexivity].
Defined.


(** The flag of the degenerate prism is the library's answer: with an
    equality test that answers no, it is false. *)
Example extrude_degenerate_flag :
  isConvex (extrude ccw_shoelace hull_of_empty (fun _ _ => false)
              Polygon_empty 1) = false.
Proof. reflexivity. Qed.


Lemma spacialTransform_identity_witness :
  ring_ok (exterior unit_square_cw) /\
  exists q,
    spacialTransform ccw_shoelace unit_square_cw identity_mat = Ok q /\
    Permutation (exterior q) (exterior unit_square_cw) /\
    (forall c, In c (exterior q) <-> In c (exterior unit_square_cw)) /\
    area q = area unit_square_cw.
Proof.
  assert (H : ring_ok (exterior unit_square_cw)).
  { right. split; [simpl; lia|reflexivity]. }
  split; [exact H|].
  exact (spacialTransform_identity ccw_shoelace unit_square_cw H).
Defined.

Lemma andPolygons_not_polygonal_witness :
  overlay_giving (GLineString [pt 1 0; pt 1 1])
    unit_square far_square grid_size = Ok (GLineString [pt 1 0; pt 1 1]) /\
  not_polygonal (GLineString [pt 1 0; pt 1 1]) = true /\
  exists q,
    andPolygons ccw_shoelace (overlay_giving (GLineString [pt 1 0; pt 1 1]))
      unit_square far_square = Ok q /\
    q = Polygon_empty /\ exterior q = [].
Proof.
  split; [reflexivity|]. split; [reflexivity|].
  apply (andPolygons_not_polygonal ccw_shoelace
           (overlay_giving (GLineString [pt 1 0; pt 1 1]))
           unit_square far_square (GLineString [pt 1 0; pt 1 1]));
    reflexivity.
Defined.

Example andPolygons_empty_overlay :
  andPolygons ccw_shoelace (overlay_giving (GPolygon Polygon_empty))
    unit_square far_square = Ok Polygon_empty.
Proof. reflexivity. Qed.

Example andPolygons_point_overlay :
  andPolygons ccw_shoelace (overlay_giving (GPoint (Some (pt 1 1))))
    unit_square far_square = Ok Polygon_empty.
Proof. reflexivity. Qed.

Example andPolygons_mixed_overlay :
  andPolygons ccw_shoelace
    (overlay_giving
       (GGeometryCollection [GPoint (Some (pt 1 1)); GLineString [pt 1 0; pt 1 1]]))
    unit_square far_square = Ok Polygon_empty.
Proof. reflexivity. Qed.

Lemma andPolygons_largest_piece_witness :
  let ps := [unit_square; far_square; wide_square_cw] in
  let overlay := overlay_giving (GMultiPolygon ps) in
  overlay unit_square far_square grid_size = Ok (GMultiPolygon ps) /\
  Exists (fun q => 0 < area q) ps /\
  Forall (fun q => orientation_agrees ccw_shoelace (exterior q)) ps /\
  exists l1 p l2,
    ps = l1 ++ p :: l2 /\
    Forall (fun q => area q < area p) l1 /\
    Forall (fun q => area q <= area p) l2 /\
    andPolygons ccw_shoelace overlay unit_square far_square
      = Ok (forceCCW ccw_shoelace p) /\
    area (forceCCW ccw_shoelace p) = area p /\
    0 < signed_area2 (exterior (forceCCW ccw_shoelace p)).
Proof.
  intros ps overlay.
  assert (H1 : overlay unit_square far_square grid_size = Ok (GMultiPolygon ps))
    by reflexivity.
  assert (H2 : Exists (fun q => 0 < area q) ps).
  { apply Exists_cons_hd. vm_compute. reflexivity. }
  assert (H3 : Forall (fun q => orientation_agrees ccw_shoelace (exterior q)) ps).
  { repeat constructor. }
  split; [exact H1|]. split; [exact H2|]. split; [exact H3|].
  exact (andPolygons_largest_piece ccw_shoelace overlay
           unit_square far_square ps H1 H2 H3).
Defined.

(** Of two pieces of equal greatest area the first one met is kept. *)
Example andPolygons_tie_keeps_first :
  andPolygons ccw_shoelace
    (overlay_giving (GMultiPolygon [unit_square; far_square; wide_square_cw]))
    unit_square far_square = Ok far_square.
Proof. reflexivity. Qed.

Example andPolygons_reverses_clockwise_piece :
  andPolygons ccw_shoelace
    (overlay_giving (GMultiPolygon [unit_square; unit_square_cw]))
    unit_square unit_square = Ok unit_square
  /\
  andPolygons ccw_shoelace
    (overlay_giving (GMultiPolygon [unit_square_cw; unit_square]))
    unit_square unit_square = Ok unit_square.
Proof. split; reflexivity. Qed.

(** A quarter turn about the x axis flattens the unit square onto a line:
    whatever the orientation test answers, the polygon that comes back has
    five coordinates and no area, so its boundary is not counter-clockwise. *)
Lemma quarter_turn_flattens (ccw : list point -> bool) :
  exists q,
    spacialTransform ccw unit_square quarter_turn_x = Ok q /\
    is_empty q = false /\
    length (exterior q) = 5%nat /\
    ~ 0 < signed_area2 (exterior q).
Proof.
  unfold spacialTransform.
  destruct (Polygon_of_coords _) as [x|e] eqn:E; vm_compute in E;
    [injection E as <-|discriminate E].
  cbn [bind]. unfold forceCCW. destruct (ccw _); cbn [negb];
    eexists; (split; [reflexivity|]); (split; [reflexivity|]);
    (split; [reflexivity|]); vm_compute; discriminate.
Qed.

(** Counterexample to C2 as stated: a non-empty polygon returned by
    [spacialTransform] whose signed area is not positive. *)
Lemma winding_counterexample :
  exists q,
    spacialTransform ccw_shoelace unit_square quarter_turn_x = Ok q /\
    is_empty q = false /\
    ~ 0 < signed_area2 (exterior q).
Proof.
  destruct (quarter_turn_flattens ccw_shoelace) as (q & H1 & H2 & _ & H3).
  exists q. auto.
Qed.

(** The same for [get]: a catalog ring of three collinear points. *)
Example get_flat_ring :
  exists q,
    get ccw_shoelace shapes_example "flat" = Ok q /\
    is_empty q = false /\
    ~ 0 < signed_area2 (exterior q).
Proof.
  eexists. split; [reflexivity|]. split; [reflexivity|].
  vm_compute. discriminate.
Qed.

Lemma winding_never_clockwise_witness :
  (exists q, get ccw_shoelace shapes_example "square" = Ok q /\
             never_clockwise q)
  /\
  (exists q, spacialTransform ccw_shoelace unit_square_cw shift_3_4 = Ok q /\
             never_clockwise q)
  /\
  (exists q, andPolygons ccw_shoelace
               (overlay_giving (GMultiPolygon [unit_square_cw; wide_square_cw]))
               unit_square_cw wide_square_cw = Ok q /\
             never_clockwise q).
Proof.
  pose proof (winding_never_clockwise ccw_shoelace
                (overlay_giving (GMultiPolygon [unit_square_cw; wide_square_cw])))
    as (Hget & Htr & Hand).
  split; [|split].
  - eexists. split; [reflexivity|].
    apply (Hget shapes_example "square" square_raw); [reflexivity|reflexivity|].
    intros x _. reflexivity.
  - eexists. split; [reflexivity|].
    apply (Htr unit_square_cw shift_3_4); [reflexivity|].
    intros x _. reflexivity.
  - eexists. split; [reflexivity|].
    apply (Hand unit_square_cw wide_square_cw
             (GMultiPolygon [unit_square_cw; wide_square_cw]));
      [reflexivity|reflexivity|].
    intros x _. reflexivity.
Defined.

(** Counterexample to C7 as stated: a self-intersecting ring and a ring
    with fewer than three points, both in the catalog, for which [get]
    returns a polygon instead of failing. *)
Lemma get_counterexample :
  (shapes_example !! "bowtie" = Some bowtie_raw /\
   self_intersecting bowtie_raw /\
   exists q, get ccw_shoelace shapes_example "bowtie" = Ok q)
  /\
  (shapes_example !! "blank" = Some [] /\
   (length ([] : list point) < 3)%nat /\
   get ccw_shoelace shapes_example "blank" = Ok Polygon_empty).
Proof.
  split; split_and!; try reflexivity.
  - exists [], (pt 0 0), (pt 1 1), [], (pt 1 0), (pt 0 1), [],
      (Q2Qc (1 # 2), Q2Qc (1 # 2)).
    split; [reflexivity|].
    split; exists (Q2Qc (1 # 2));
      (split; [reflexivity|]); (split; [reflexivity|]);
      (f_equal; apply Qc_is_canon; reflexivity).
  - eexists. reflexivity.
  - simpl. lia.
Qed.

Lemma get_outcomes_witness :
  get ccw_shoelace shapes_example "circle" = Raise KeyError /\
  get ccw_shoelace shapes_example "blank" = Ok Polygon_empty /\
  get ccw_shoelace shapes_example "pair" = Raise ValueError /\
  get ccw_shoelace shapes_example "square" =
    Ok (forceCCW ccw_shoelace
          (mkPolygon
             (if needs_closure square_raw
              then square_raw ++ firstn 1 square_raw else square_raw))).
Proof.
  split_and!.
  - apply (proj1 (get_outcomes ccw_shoelace shapes_example "circle")).
    reflexivity.
  - apply (proj1 (proj2 (get_outcomes ccw_shoelace shapes_example "blank")
                    [] eq_refl)).
    reflexivity.
  - apply (proj1 (proj2 (proj2 (get_outcomes ccw_shoelace shapes_example "pair")
                           [pt 0 0; pt 1 1] eq_refl))).
    simpl. lia.
  - apply (proj2 (proj2 (proj2 (get_outcomes ccw_shoelace shapes_example "square")
                           square_raw eq_refl))).
    simpl. lia.
Defined.

Example get_square :
  get ccw_shoelace shapes_example "square" = Ok unit_square.
Proof. reflexivity. Qed.

Example get_bowtie :
  get ccw_shoelace shapes_example "bowtie" =
  Ok (mkPolygon [pt 0 0; pt 0 1; pt 1 0; pt 1 1; pt 0 0]).
Proof. reflexivity. Qed.

(** ** High scores and level locks ([utils.py], [LevelSelector]) *)

(** X9.  [setHighScore] followed by [getHighScore] of the same level gives
    the score just set, and the score of every other level is untouched.
    When the file is missing or is not JSON, [setHighScore] raises what
    reading raises and writes nothing. *)
Theorem setHighScore_getHighScore (scores : gmap string Z) (name : string)
    (v : Z) :
  (exists f',
     setHighScore (Scores scores) name v = Py.Ok f' /\
     getHighScore f' name = Py.Ok v /\
     forall other, other <> name ->
       getHighScore f' other = getHighScore (Scores scores) other)
  /\ setHighScore NoFile name v = Py.Raise Py.FileNotFoundError
  /\ setHighScore NotJson name v = Py.Raise Py.JSONDecodeError.
Proof.
  split_and!; try reflexivity.
  eexists. split; [reflexivity|]. split.
  - unfold getHighScore. cbn. by rewrite lookup_insert_eq.
  - intros other Hne. unfold getHighScore. cbn.
    by rewrite lookup_insert_ne.
Qed.

Lemma template_covers_thresholds :
  map_Forall (fun level _ => template_scores !! level = Some 0%Z) thresholds.
Proof. apply map_Forall_to_list. vm_compute. repeat constructor. Qed.

Lemma thresholds_needs_known :
  map_Forall
    (fun name t =>
       is_Some (friendlyNames !! name) /\
       match t with
       | Unlocked => True
       | Needs level _ =>
           is_Some (thresholds !! level) /\
           is_Some (template_scores !! level) /\
           is_Some (friendlyNames !! level)
       end) thresholds.
Proof.
  apply map_Forall_to_list. vm_compute.
  repeat (constructor; [vm_compute; repeat split; eauto|]). constructor.
Qed.

(** X10.  After [checkHighScoreJson] a missing file holds a score of 0 for
    every level of [thresholds].  A file that was there is never touched:
    existing scores survive, and a file that is not JSON stays that way,
    so [getHighScore] still raises on it. *)
Theorem checkHighScoreJson_outcome :
  (forall level, is_Some (thresholds !! level) ->
     getHighScore (checkHighScoreJson NoFile) level = Py.Ok 0%Z)
  /\ (forall f, f <> NoFile -> checkHighScoreJson f = f)
  /\ (forall f, checkHighScoreJson (checkHighScoreJson f)
                = checkHighScoreJson f)
  /\ (forall level,
        getHighScore (checkHighScoreJson NotJson) level
        = Py.Raise Py.JSONDecodeError).
Proof.
  split_and!.
  - intros level [t Ht].
    pose proof (template_covers_thresholds level t Ht) as H.
    unfold getHighScore. cbn [checkHighScoreJson load_scores Py.bind].
    by rewrite H.
  - by intros [].
  - by intros [].
  - done.
Qed.

(** X11.  For a score file that has a score for every level of the
    template, the lock of every level of [thresholds] is computed without
    an exception, and every level and every level it depends on has a
    friendly name for the hover text.  On the template itself exactly
    [square] and [triangle] are open. *)
Theorem LevelSelector_locked_total (scores : gmap string Z) (level : string) :
  (forall k, is_Some (template_scores !! k) -> is_Some (scores !! k)) ->
  is_Some (thresholds !! level) ->
  (exists locked, LevelSelector_locked (Scores scores) level = Py.Ok locked)
  /\ is_Some (friendlyNames !! level)
  /\ (forall dep n, thresholds !! level = Some (Needs dep n) ->
        is_Some (friendlyNames !! dep))
  /\ LevelSelector_locked (Scores template_scores) level
     = Py.Ok (negb (bool_decide (level = "square" \/ level = "triangle"))).
Proof.
  intros Hcov [t Ht].
  pose proof (thresholds_needs_known level t Ht) as [Hname Hdep].
  split_and!.
  - unfold LevelSelector_locked. rewrite Ht. destruct t as [|dep n]; [eauto|].
    destruct Hdep as (_ & Htem & _). destruct (Hcov dep Htem) as [s Hs].
    unfold getHighScore. cbn. rewrite Hs. eauto.
  - done.
  - intros dep n Hdn. rewrite Hdn in Ht. injection Ht as <-.
    by destruct Hdep as (_ & _ & Hf).
  - revert level t Ht Hname Hdep.
    assert (H : map_Forall
                  (fun level _ =>
                     LevelSelector_locked (Scores template_scores) level
                     = Py.Ok (negb (bool_decide
                                 (level = "square" \/ level = "triangle"))))
                  thresholds).
    { apply map_Forall_to_list. vm_compute. repeat constructor. }
    intros level t Ht _ _. exact (H level t Ht).
Qed.

(** X12.  Raising scores never locks a level: a level that is open under
    one score object is open under any object whose scores are at least as
    high. *)
Theorem LevelSelector_locked_monotone (scores scores' : gmap string Z)
    (level : string) :
  scores_le scores scores' ->
  LevelSelector_locked (Scores scores) level = Py.Ok false ->
  LevelSelector_locked (Scores scores') level = Py.Ok false.
Proof.
  intros Hle. unfold LevelSelector_locked.
  destruct (thresholds !! level) as [[|dep n]|]; try done.
  unfold getHighScore. cbn.
  destruct (scores !! dep) as [s|] eqn:Es; [|done].
  destruct (Hle dep s Es) as (s' & -> & Hs). cbn.
  intros [= H]. f_equal. apply negb_false_iff in H. apply negb_false_iff.
  apply Z.leb_le in H. apply Z.leb_le. lia.
Qed.

(** X13.  The bookkeeping at game over stores the larger of the old high
    score and the new score, reports a new high exactly when the new score
    is strictly larger, and leaves every other level as it was; no score in
    the file ever goes down. *)
Theorem record_score_max (scores : gmap string Z) (name : string)
    (old score : Z) :
  scores !! name = Some old ->
  exists scores',
    record_score (Scores scores) name score
    = Py.Ok (bool_decide (old < score)%Z, Scores scores') /\
    scores' !! name = Some (Z.max old score) /\
    (forall other, other <> name -> scores' !! other = scores !! other) /\
    scores_le scores scores'.
Proof.
  intros Hold. unfold record_score, getHighScore. cbn. rewrite Hold. cbn.
  destruct (Z.ltb_spec old score) as [Hlt|Hge].
  - exists (<[name := score]> scores). cbn.
    rewrite bool_decide_eq_true_2 by done. split_and!; [done| | |].
    + rewrite lookup_insert_eq. f_equal. lia.
    + intros other Hne. by rewrite lookup_insert_ne.
    + intros level s Hs. destruct (decide (level = name)) as [->|Hne].
      * rewrite lookup_insert_eq. exists score. split; [done|].
        rewrite Hold in Hs. injection Hs as <-. lia.
      * rewrite lookup_insert_ne by done. exists s. split; [done|lia].
  - exists scores. rewrite bool_decide_eq_false_2 by lia.
    split_and!; [done| | |].
    + rewrite Hold. f_equal. lia.
    + done.
    + intros level s Hs. exists s. split; [done|lia].
Qed.

(** A level that is not in the score file makes the bookkeeping raise
    [KeyError]. *)
Lemma record_score_unknown (scores : gmap string Z) (name : string) (score : Z) :
  scores !! name = None ->
  record_score (Scores scores) name score = Py.Raise Py.KeyError.
Proof. intros H. unfold record_score, getHighScore. cbn. by rewrite H. Qed.

(** ** Motion, cursor, lives and timer *)

(** Order facts on [Qc], through [Q]. *)
Ltac qc2q :=
  unfold Qclt, Qcle, Qcminus, Qcplus, Qcopp, Qcmult, qz, Q2Qc in *;
  cbn [this] in *; rewrite ?Qred_correct in *.

Lemma qfloor_spec (x : Qc) : qz (qfloor x) <= x /\ x < qz (qfloor x + 1).
Proof.
  unfold qfloor. pose proof (Qround.Qfloor_le (this x)).
  pose proof (Qround.Qlt_floor (this x)). qc2q. split; lra.
Qed.

Lemma qz_le (a b : Z) : qz a <= qz b <-> (a <= b)%Z.
Proof. qc2q. by rewrite Zle_Qle. Qed.

Lemma qz_lt (a b : Z) : qz a < qz b <-> (a < b)%Z.
Proof. qc2q. by rewrite Zlt_Qlt. Qed.

Lemma qz_plus (a b : Z) : qz (a + b) = qz a + qz b.
Proof. apply Qc_is_canon. qc2q. by rewrite inject_Z_plus. Qed.

Lemma qz_mult (a b : Z) : qz (a * b) = qz a * qz b.
Proof. apply Qc_is_canon. qc2q. by rewrite inject_Z_mult. Qed.

Lemma Qc_abs_le (x y : Qc) : Qc_abs x <= y <-> - y <= x /\ x <= y.
Proof.
  unfold Qc_abs. case_bool_decide as H; split; intros; qc2q; lra.
Qed.

(** *** The rounding of binary64 is monotone *)

Section Binary64.

Local Open Scope Q_scope.

Lemma pow2_pos (e : Z) : 0 < pow2 e.
Proof. apply Qpower.Qpower_0_lt. reflexivity. Qed.

Lemma pow2_plus (a b : Z) : pow2 (a + b) == pow2 a * pow2 b.
Proof. apply Qpower.Qpower_plus. discriminate. Qed.

Lemma pow2_le (a b : Z) : (a <= b)%Z -> pow2 a <= pow2 b.
Proof. intros H. apply Qpower.Qpower_le_compat_l; [exact H|discriminate]. Qed.

Lemma pow2_lt_inv (a b : Z) : pow2 a < pow2 b -> (a < b)%Z.
Proof.
  intros H. apply (Qpower.Qpower_lt_compat_l_inv 2); [exact H|reflexivity].
Qed.

Lemma pow2_Z (n : Z) : (0 <= n)%Z -> pow2 n == inject_Z (2 ^ n).
Proof. intros H. unfold pow2. by rewrite Qpower.Zpower_Qpower. Qed.

(** Dividing by a power of two moves the exponent. *)
Lemma div_pow2_lt (x : Q) (a b : Z) :
  x < pow2 (a + b) -> x / pow2 b < pow2 a.
Proof.
  rewrite pow2_plus. intros H. apply Qlt_shift_div_r; [apply pow2_pos|done].
Qed.

Lemma div_pow2_ge (x : Q) (a b : Z) :
  pow2 (a + b) <= x -> pow2 a <= x / pow2 b.
Proof.
  rewrite pow2_plus. intros H. apply Qle_shift_div_l; [apply pow2_pos|done].
Qed.

(** [ilog2 x] is the exponent of the binade of [x]. *)
Lemma ilog2_spec (x : Q) :
  0 < x -> pow2 (ilog2 x) <= x /\ x < pow2 (ilog2 x + 1).
Proof.
  intros Hx. destruct x as [n d].
  assert (Hn : (0 < n)%Z).
  { unfold Qlt in Hx. simpl in Hx. lia. }
  pose proof (Z.log2_spec n Hn) as [Hn1 Hn2].
  pose proof (Z.log2_spec (Z.pos d) eq_refl) as [Hd1 Hd2].
  pose proof (Z.log2_nonneg n) as Hln.
  pose proof (Z.log2_nonneg (Z.pos d)) as Hld.
  set (ln := Z.log2 n) in *. set (ld := Z.log2 (Z.pos d)) in *.
  assert (Hlow : pow2 (ln - ld - 1) < n # d).
  { rewrite Qmake_Qdiv. apply Qlt_shift_div_l; [reflexivity|].
    assert (E : pow2 ln == pow2 (ln - ld - 1) * pow2 (ld + 1)).
    { rewrite <- pow2_plus.
      by replace (ln - ld - 1 + (ld + 1))%Z with ln by lia. }
    assert (H1 : pow2 ln <= inject_Z n).
    { rewrite pow2_Z by done. by rewrite <- Zle_Qle. }
    assert (H2 : inject_Z (Z.pos d) < pow2 (ld + 1)).
    { rewrite pow2_Z by lia. rewrite <- Zlt_Qlt.
      by rewrite <- Z.add_1_r in Hd2. }
    pose proof (pow2_pos (ln - ld - 1)) as H3.
    assert (H4 : pow2 (ln - ld - 1) * inject_Z (Z.pos d)
                 < pow2 (ln - ld - 1) * pow2 (ld + 1)).
    { apply Qmult_lt_l; done. }
    lra. }
  assert (Hup : n # d < pow2 (ln - ld + 1)).
  { rewrite Qmake_Qdiv. apply Qlt_shift_div_r; [reflexivity|].
    assert (E : pow2 (ln + 1) == pow2 (ln - ld + 1) * pow2 ld).
    { rewrite <- pow2_plus.
      by replace (ln - ld + 1 + ld)%Z with (ln + 1)%Z by lia. }
    assert (H1 : inject_Z n < pow2 (ln + 1)).
    { rewrite pow2_Z by lia. rewrite <- Zlt_Qlt.
      by rewrite <- Z.add_1_r in Hn2. }
    assert (H2 : pow2 ld <= inject_Z (Z.pos d)).
    { rewrite pow2_Z by done. by rewrite <- Zle_Qle. }
    pose proof (pow2_pos (ln - ld + 1)) as H3.
    assert (H4 : pow2 (ln - ld + 1) * pow2 ld
                 <= pow2 (ln - ld + 1) * inject_Z (Z.pos d)).
    { apply Qmult_le_l; done. }
    lra. }
  unfold ilog2. cbn [Qnum Qden]. fold ln ld.
  destruct (Qle_bool (pow2 (ln - ld)) (n # d)) eqn:E.
  - apply Qle_bool_iff in E. done.
  - assert (E' : n # d < pow2 (ln - ld)).
    { apply Qnot_le_lt. intros H. apply Qle_bool_iff in H. congruence. }
    replace (ln - ld - 1 + 1)%Z with (ln - ld)%Z by lia. split; [lra|done].
Qed.

Lemma ilog2_le (x y : Q) : 0 < x -> x <= y -> (ilog2 x <= ilog2 y)%Z.
Proof.
  intros Hx Hxy.
  pose proof (ilog2_spec x Hx) as [H1 _].
  assert (Hy : 0 < y) by lra.
  pose proof (ilog2_spec y Hy) as [_ H2].
  assert (H : pow2 (ilog2 x) < pow2 (ilog2 y + 1)) by lra.
  apply pow2_lt_inv in H. lia.
Qed.

Lemma rne_cases (y : Q) :
  rne y = Qround.Qfloor y \/ rne y = (Qround.Qfloor y + 1)%Z.
Proof.
  unfold rne. destruct (_ ?= _); [destruct (Z.even _)|..]; auto.
Qed.

Lemma rne_le (y1 y2 : Q) : y1 <= y2 -> (rne y1 <= rne y2)%Z.
Proof.
  intros H. pose proof (Qround.Qfloor_resp_le _ _ H) as Hf.
  destruct (Z.eq_dec (Qround.Qfloor y1) (Qround.Qfloor y2)) as [E|E].
  - unfold rne. rewrite <- E.
    destruct (Qcompare_spec (y1 - inject_Z (Qround.Qfloor y1)) (1 # 2));
      destruct (Qcompare_spec (y2 - inject_Z (Qround.Qfloor y1)) (1 # 2));
      try destruct (Z.even _); try lia; lra.
  - destruct (rne_cases y1) as [->| ->], (rne_cases y2) as [->| ->]; lia.
Qed.

Lemma rne_Z (z : Z) : rne (inject_Z z) = z.
Proof.
  unfold rne. rewrite Qround.Qfloor_Z.
  destruct (Qcompare_spec (inject_Z z - inject_Z z) (1 # 2)); [lra|done|lra].
Qed.

(** A positive number is rounded within the closure of its binade. *)
Lemma round_pos_upper (x : Q) :
  0 < x -> round_pos x <= pow2 (Z.max (ilog2 x) (-1022) + 1).
Proof.
  intros Hx. unfold round_pos, ulp_exp.
  set (k := Z.max (ilog2 x) (-1022)).
  pose proof (ilog2_spec x Hx) as [_ H].
  assert (H1 : x < pow2 (53 + (k - 52))).
  { eapply Qlt_le_trans; [exact H|]. apply pow2_le. lia. }
  apply div_pow2_lt in H1. rewrite (pow2_Z 53) in H1 by done.
  assert (H2 : (rne (x / pow2 (k - 52)) <= 2 ^ 53)%Z).
  { rewrite <- (rne_Z (2 ^ 53)). apply rne_le. lra. }
  rewrite Zle_Qle in H2. rewrite <- (pow2_Z 53) in H2 by done.
  replace (k + 1)%Z with (53 + (k - 52))%Z by lia. rewrite pow2_plus.
  apply Qmult_le_r; [apply pow2_pos|done].
Qed.

Lemma round_pos_lower (x : Q) :
  0 < x -> (-1022 <= ilog2 x)%Z -> pow2 (ilog2 x) <= round_pos x.
Proof.
  intros Hx Hk. unfold round_pos, ulp_exp.
  rewrite Z.max_l by done. set (k := ilog2 x).
  pose proof (ilog2_spec x Hx) as [H _]. fold k in H.
  replace k with (52 + (k - 52))%Z in H at 1 by lia.
  apply div_pow2_ge in H. rewrite (pow2_Z 52) in H by done.
  assert (H2 : (2 ^ 52 <= rne (x / pow2 (k - 52)))%Z).
  { rewrite <- (rne_Z (2 ^ 52)) at 1. by apply rne_le. }
  rewrite Zle_Qle in H2. rewrite <- (pow2_Z 52) in H2 by done.
  replace k with (52 + (k - 52))%Z at 1 by lia. rewrite pow2_plus.
  apply Qmult_le_r; [apply pow2_pos|done].
Qed.

Lemma round_pos_nonneg (x : Q) : 0 <= x -> 0 <= round_pos x.
Proof.
  intros Hx. unfold round_pos.
  pose proof (pow2_pos (ulp_exp x)) as Hp.
  assert (H : (0 <= rne (x / pow2 (ulp_exp x)))%Z).
  { rewrite <- (rne_Z 0) at 1. apply rne_le.
    apply Qle_shift_div_l; [done|]. by rewrite Qmult_0_l. }
  rewrite Zle_Qle in H. apply Qmult_le_0_compat; [done|lra].
Qed.

(** Two numbers of the same binade are rounded on the same grid; between
    two binades lies a power of two, which is a double. *)
Lemma round_pos_le (x y : Q) : 0 < x -> x <= y -> round_pos x <= round_pos y.
Proof.
  intros Hx Hxy. assert (Hy : 0 < y) by lra.
  pose proof (ilog2_le x y Hx Hxy) as Hk.
  destruct (Z.eq_dec (Z.max (ilog2 x) (-1022)) (Z.max (ilog2 y) (-1022)))
    as [E|E].
  - unfold round_pos, ulp_exp. rewrite <- E.
    set (e := (Z.max (ilog2 x) (-1022) - 52)%Z).
    pose proof (pow2_pos e) as Hp.
    assert (H : (rne (x / pow2 e) <= rne (y / pow2 e))%Z).
    { apply rne_le. apply Qmult_le_compat_r; [done|].
      apply Qlt_le_weak, Qinv_lt_0_compat, Hp. }
    rewrite Zle_Qle in H. apply Qmult_le_r; done.
  - assert (Hlt : (Z.max (ilog2 x) (-1022) < ilog2 y)%Z) by lia.
    eapply Qle_trans; [apply round_pos_upper, Hx|].
    eapply Qle_trans; [|apply round_pos_lower; [done|lia]].
    apply pow2_le. lia.
Qed.

Lemma round64_le (x y : Q) : x <= y -> round64 x <= round64 y.
Proof.
  intros H. unfold round64.
  destruct (Qcompare_spec x 0) as [Ex|Ex|Ex],
           (Qcompare_spec y 0) as [Ey|Ey|Ey]; try lra.
  - apply round_pos_nonneg. lra.
  - assert (0 <= round_pos (- x)) by (apply round_pos_nonneg; lra). lra.
  - assert (round_pos (- y) <= round_pos (- x))
      by (apply round_pos_le; lra). lra.
  - assert (0 <= round_pos (- x)) by (apply round_pos_nonneg; lra).
    assert (0 <= round_pos y) by (apply round_pos_nonneg; lra). lra.
  - by apply round_pos_le.
Qed.

Lemma rne_comp (y1 y2 : Q) : y1 == y2 -> rne y1 = rne y2.
Proof.
  intros E. unfold rne. rewrite (Qround.Qfloor_comp _ _ E).
  assert (E' : y1 - inject_Z (Qround.Qfloor y2)
               == y2 - inject_Z (Qround.Qfloor y2)) by (by rewrite E).
  by rewrite (Qcompare_comp _ _ E' (1 # 2) (1 # 2) (Qeq_refl _)).
Qed.

(** The integers up to [2 ^ 53] are doubles. *)
Lemma round_pos_Z (z : Z) :
  (0 < z <= 2 ^ 53)%Z -> round_pos (inject_Z z) == inject_Z z.
Proof.
  intros [Hz1 Hz2].
  assert (Hx : 0 < inject_Z z).
  { change 0 with (inject_Z 0). by rewrite <- Zlt_Qlt. }
  pose proof (ilog2_spec _ Hx) as [H1 H2].
  assert (Hk0 : (0 <= ilog2 (inject_Z z))%Z).
  { assert (H : pow2 0 < pow2 (ilog2 (inject_Z z) + 1)).
    { eapply Qle_lt_trans; [|exact H2].
      change (pow2 0) with (inject_Z 1). rewrite <- Zle_Qle. lia. }
    apply pow2_lt_inv in H. lia. }
  assert (Hk53 : (ilog2 (inject_Z z) <= 53)%Z).
  { assert (H : pow2 (ilog2 (inject_Z z)) < pow2 54).
    { eapply Qle_lt_trans; [exact H1|].
      rewrite (pow2_Z 54) by done. rewrite <- Zlt_Qlt. lia. }
    apply pow2_lt_inv in H. lia. }
  destruct (Z.eq_dec (ilog2 (inject_Z z)) 53%Z) as [E53|E53].
  - assert (z = (2 ^ 53)%Z) as ->.
    { rewrite E53, (pow2_Z 53) in H1 by done. rewrite <- Zle_Qle in H1. lia. }
    vm_compute. reflexivity.
  - unfold round_pos, ulp_exp. rewrite Z.max_l by lia.
    set (k := ilog2 (inject_Z z)) in *.
    assert (Einv : / pow2 (k - 52) == inject_Z (2 ^ (52 - k))).
    { rewrite <- pow2_Z by lia. unfold pow2.
      rewrite <- Qpower.Qpower_opp. by replace (- (k - 52))%Z with (52 - k)%Z by lia. }
    assert (E : inject_Z z / pow2 (k - 52) == inject_Z (z * 2 ^ (52 - k))).
    { unfold Qdiv. by rewrite Einv, inject_Z_mult. }
    rewrite (rne_comp _ _ E), rne_Z, inject_Z_mult, <- Einv.
    pose proof (pow2_pos (k - 52)) as Hp. field. lra.
Qed.

Lemma round64_Z (z : Z) :
  (Z.abs z <= 2 ^ 53)%Z -> round64 (inject_Z z) == inject_Z z.
Proof.
  intros Hz. unfold round64.
  destruct (Qcompare_spec (inject_Z z) 0) as [E|E|E].
  - by rewrite E.
  - change 0 with (inject_Z 0) in E. rewrite <- Zlt_Qlt in E.
    change (- inject_Z z) with (inject_Z (- z)).
    rewrite round_pos_Z by lia. rewrite inject_Z_opp. ring.
  - change 0 with (inject_Z 0) in E. rewrite <- Zlt_Qlt in E.
    apply round_pos_Z. lia.
Qed.

End Binary64.

Lemma rnd64_monotone : monotone rnd64.
Proof.
  intros x y H. unfold Qcle, rnd64, Q2Qc. cbn [this].
  apply Qred_le, round64_le, H.
Qed.

Lemma rnd64_Z (z : Z) : (Z.abs z <= 2 ^ 53)%Z -> is_double rnd64 (qz z).
Proof.
  intros Hz. unfold is_double, rnd64, qz. apply Qc_is_canon.
  unfold Q2Qc. cbn [this].
  rewrite (Qred_identity (inject_Z z)) by apply Z.gcd_1_r.
  rewrite Qred_correct. by apply round64_Z.
Qed.

Lemma rnd64_half :
  is_double rnd64 0 /\ is_double rnd64 1 /\
  is_double rnd64 half /\ is_double rnd64 (- half).
Proof. split_and!; apply Qc_is_canon; reflexivity. Qed.

Lemma qz_opp (a : Z) : qz (- a) = - qz a.
Proof. apply Qc_is_canon. qc2q. by rewrite inject_Z_opp. Qed.

(** *** Remainders *)

Lemma qtrunc_nonneg (x : Qc) :
  0 <= x -> qz (qtrunc x) <= x /\ x < qz (qtrunc x) + 1.
Proof.
  intros Hx. destruct x as [[n d] c]. unfold qtrunc. cbn [this Qnum Qden].
  assert (Hn : (0 <= n)%Z).
  { unfold Qcle, Qle in Hx. simpl in Hx. lia. }
  pose proof (Z.quot_rem' n (Z.pos d)) as E.
  pose proof (Z.rem_bound_pos n (Z.pos d) Hn eq_refl) as Hr.
  set (q := Z.quot n (Z.pos d)) in *. clearbody q. clear Hx.
  qc2q. unfold Qle, Qlt, Qplus. simpl. split; nia.
Qed.

Lemma qtrunc_nonpos (x : Qc) :
  x <= 0 -> x <= qz (qtrunc x) /\ qz (qtrunc x) < x + 1.
Proof.
  intros Hx. destruct x as [[n d] c]. unfold qtrunc. cbn [this Qnum Qden].
  assert (Hn : (n <= 0)%Z).
  { unfold Qcle, Qle in Hx. simpl in Hx. lia. }
  pose proof (Z.quot_rem' n (Z.pos d)) as E.
  pose proof (Z.rem_bound_pos_neg n (Z.pos d) eq_refl Hn) as Hr.
  set (q := Z.quot n (Z.pos d)) in *. clearbody q. clear Hx.
  qc2q. unfold Qle, Qlt, Qplus. simpl. split; nia.
Qed.

Lemma Qc_div_mult (a b : Qc) : 0 < b -> a = b * (a / b).
Proof.
  intros Hb. field. intros Hz. apply Qclt_not_eq in Hb. congruence.
Qed.

Lemma Qc_div_sign (a b : Qc) :
  0 < b -> (0 <= a -> 0 <= a / b) /\ (a <= 0 -> a / b <= 0).
Proof.
  intros Hb. pose proof (Qc_div_mult a b Hb) as E.
  generalize dependent (a / b). intros q ->.
  split; intros H; qc2q; nra.
Qed.

(** The remainder of a number that is not negative is exact and lies in
    [0, b). *)
Lemma fmod_nonneg (a b : Qc) :
  0 <= a -> 0 < b -> 0 <= fmod a b /\ fmod a b < b.
Proof.
  intros Ha Hb. unfold fmod.
  destruct (Qc_div_sign a b Hb) as [Hq _]. specialize (Hq Ha).
  destruct (qtrunc_nonneg _ Hq) as [H1 H2].
  pose proof (Qc_div_mult a b Hb) as E.
  generalize dependent (qz (qtrunc (a / b))). intros f H1 H2.
  generalize dependent (a / b). intros q Hq E H1 H2. subst a.
  clear Ha. qc2q. split; nra.
Qed.

Lemma fmod_nonpos (a b : Qc) :
  a <= 0 -> 0 < b -> - b < fmod a b /\ fmod a b <= 0.
Proof.
  intros Ha Hb. unfold fmod.
  destruct (Qc_div_sign a b Hb) as [_ Hq]. specialize (Hq Ha).
  destruct (qtrunc_nonpos _ Hq) as [H1 H2].
  pose proof (Qc_div_mult a b Hb) as E.
  generalize dependent (qz (qtrunc (a / b))). intros f H1 H2.
  generalize dependent (a / b). intros q Hq E H1 H2. subst a.
  clear Ha. qc2q. split; nra.
Qed.

Lemma Qc_le_total (a : Qc) : 0 <= a \/ a <= 0.
Proof. destruct (Qclt_le_dec a 0) as [H|H]; [right|left]; qc2q; lra. Qed.

Section FloatProperties.

Variable rnd : Qc -> Qc.

Hypothesis rnd_mono : monotone rnd.

Hypothesis rnd_0 : is_double rnd 0.

Lemma rnd_between (lo hi x : Qc) :
  is_double rnd lo -> is_double rnd hi -> lo <= x -> x <= hi ->
  lo <= rnd x /\ rnd x <= hi.
Proof.
  intros Hlo Hhi H1 H2. split.
  - rewrite <- Hlo. by apply rnd_mono.
  - rewrite <- Hhi. by apply rnd_mono.
Qed.

Lemma rnd_nonneg (x : Qc) : 0 <= x -> 0 <= rnd x.
Proof. intros H. rewrite <- rnd_0. by apply rnd_mono. Qed.

Lemma float_rem_nonneg (a b : Qc) :
  0 <= a -> 0 < b ->
  float_rem rnd a b = fmod a b /\
  0 <= float_rem rnd a b /\ float_rem rnd a b < b.
Proof.
  intros Ha Hb. destruct (fmod_nonneg a b Ha Hb) as [H1 H2].
  unfold float_rem.
  assert (E1 : bool_decide (b < 0) = false).
  { apply bool_decide_eq_false. qc2q. lra. }
  assert (E2 : bool_decide (fmod a b < 0) = false).
  { apply bool_decide_eq_false. qc2q. lra. }
  rewrite E1, E2, andb_false_r. done.
Qed.

(** [a % b] for a positive double [b] lies in [0, b]: it can be [b]
    itself, when [a] is negative and the sum of its remainder and [b]
    rounds up to [b]. *)
Lemma float_rem_range (a b : Qc) :
  0 < b -> is_double rnd b ->
  0 <= float_rem rnd a b /\ float_rem rnd a b <= b.
Proof.
  intros Hb Hdb. destruct (Qc_le_total a) as [Ha|Ha].
  - destruct (float_rem_nonneg a b Ha Hb) as (_ & H1 & H2).
    split; [done|]. qc2q. lra.
  - destruct (fmod_nonpos a b Ha Hb) as [H1 H2]. unfold float_rem.
    destruct (_ && _) eqn:E.
    + apply rnd_between; [exact rnd_0|exact Hdb|..]; qc2q; lra.
    + apply andb_false_iff in E as [E|E].
      * apply bool_decide_eq_false in E.
        assert (fmod a b = 0) as -> by (by destruct (decide (fmod a b = 0))).
        split; qc2q; lra.
      * assert (E1 : bool_decide (b < 0) = false).
        { apply bool_decide_eq_false. qc2q. lra. }
        rewrite E1 in E. cbn in E. apply bool_decide_eq_false in E.
        split; qc2q; lra.
Qed.

(** [ctrlPos] stays between [-A] and [A] under every such rounding, when
    [A], [-A], [2 * A] and [4 * A] are doubles. *)
Lemma ctrlPos_within_rounding (A T d x : Qc) :
  is_double rnd 1 -> is_double rnd half -> is_double rnd (- half) ->
  0 <= A ->
  is_double rnd A -> is_double rnd (- A) ->
  is_double rnd (qz 2 * A) -> is_double rnd (qz 4 * A) ->
  - A <= ctrlPos rnd A T d x /\ ctrlPos rnd A T d x <= A.
Proof.
  intros H1 Hh Hnh HA HdA HdnA Hd2 Hd4. unfold ctrlPos.
  destruct (float_rem_range (fsub rnd (fdiv rnd x T) d) 1) as [Hm1 Hm2];
    [by vm_compute|done|].
  generalize dependent (float_rem rnd (fsub rnd (fdiv rnd x T) d) 1).
  intros m Hm1 Hm2.
  assert (Hu : - half <= fsub rnd m half /\ fsub rnd m half <= half).
  { unfold fsub. apply rnd_between; [exact Hnh|exact Hh|..];
      unfold half; qc2q; lra. }
  apply Qc_abs_le in Hu. pose proof (Qc_abs_nonneg (fsub rnd m half)) as Hv.
  generalize dependent (Qc_abs (fsub rnd m half)). intros v Hu Hv.
  assert (Hw : 0 <= fmul rnd (fmul rnd (qz 4) A) v /\
               fmul rnd (fmul rnd (qz 4) A) v <= qz 2 * A).
  { unfold fmul. rewrite Hd4.
    apply rnd_between; [exact rnd_0|exact Hd2|..]; unfold half in *; qc2q;
      change (inject_Z 4) with 4%Q; change (inject_Z 2) with 2%Q; nra. }
  generalize dependent (fmul rnd (fmul rnd (qz 4) A) v). intros w [Hw1 Hw2].
  unfold fsub. apply rnd_between; [exact HdnA|exact HdA|..];
    qc2q; change (inject_Z 2) with 2%Q in *; lra.
Qed.

Lemma float_rem_half : float_rem rnd half 1 = half.
Proof.
  destruct (float_rem_nonneg half 1) as [-> _]; [by vm_compute..|].
  apply Qc_is_canon. reflexivity.
Qed.

Lemma float_rem_zero : float_rem rnd 0 1 = 0.
Proof.
  destruct (float_rem_nonneg 0 1) as [-> _]; [by vm_compute..|].
  apply Qc_is_canon. reflexivity.
Qed.

(** [ctrlPos] at the start of a move. *)
Lemma ctrlPos_start (A T : Qc) :
  is_double rnd half -> is_double rnd (- half) ->
  is_double rnd A -> is_double rnd (- A) ->
  is_double rnd (qz 2 * A) -> is_double rnd (qz 4 * A) ->
  ctrlPos rnd A T (- half) 0 = - A /\ ctrlPos rnd A T 0 0 = A.
Proof.
  intros Hh Hnh HdA HdnA Hd2 Hd4. unfold ctrlPos, fdiv.
  replace (0 / T) with 0 by (unfold Qcdiv; ring). rewrite rnd_0.
  split.
  - unfold fsub at 3. replace (0 - - half) with half by ring.
    rewrite Hh, float_rem_half.
    unfold fsub at 2. replace (half - half) with 0 by ring. rewrite rnd_0.
    replace (Qc_abs 0) with 0 by (apply Qc_is_canon; reflexivity).
    unfold fmul at 1. replace (fmul rnd (qz 4) A * 0) with 0 by ring.
    rewrite rnd_0. unfold fsub. replace (0 - A) with (- A) by ring. done.
  - unfold fsub at 3. replace (0 - 0) with 0 by ring.
    rewrite rnd_0, float_rem_zero.
    unfold fsub at 2. replace (0 - half) with (- half) by ring. rewrite Hnh.
    replace (Qc_abs (- half)) with half by (apply Qc_is_canon; reflexivity).
    unfold fmul. rewrite Hd4.
    replace (qz 4 * A * half) with (qz 2 * A)
      by (apply Qc_is_canon; unfold half; qc2q;
          change (inject_Z 4) with 4%Q; change (inject_Z 2) with 2%Q; ring).
    rewrite Hd2. unfold fsub.
    replace (qz 2 * A - A) with A
      by (apply Qc_is_canon; qc2q; change (inject_Z 2) with 2%Q; ring).
    done.
Qed.

(** [mouseTheta] for a step that divides 360, when 360, the step and
    their quotient are doubles. *)
Lemma mouseTheta_range_rounding (step offset : Z) (invert : bool)
    (mouse_x : Z) :
  (0 < step)%Z -> (step | 360)%Z ->
  is_double rnd (qz 360) -> is_double rnd (qz step) ->
  is_double rnd (qz (360 / step)) ->
  let theta := mouseTheta rnd step offset invert mouse_x in
  (step | theta)%Z /\ (0 <= theta <= 360)%Z.
Proof.
  intros Hstep [k Hk] H360 Hds Hdk theta. subst theta. unfold mouseTheta.
  split; [apply Z.divide_factor_r|].
  assert (Ek : (360 / step)%Z = k).
  { rewrite Hk. apply Z.div_mul. lia. }
  rewrite Ek in Hdk.
  destruct (float_rem_range
              (fadd rnd (fmul rnd (qz 360)
                           (fdiv rnd (qz (getMouseX invert mouse_x))
                              (qz width)))
                 (rnd (qz offset))) (qz 360)) as [Hv1 Hv2];
    [by vm_compute|done|].
  fold (mouse_angle rnd offset invert mouse_x) in Hv1, Hv2.
  generalize dependent (mouse_angle rnd offset invert mouse_x).
  intros v Hv1 Hv2. rewrite Hds.
  assert (Hs : 0 < qz step) by (by apply (proj2 (qz_lt 0 step))).
  assert (Hq : 0 <= fdiv rnd v (qz step) /\ fdiv rnd v (qz step) <= qz k).
  { unfold fdiv.
    pose proof (Qc_div_mult v (qz step) Hs) as E.
    assert (E360 : qz 360 = qz step * qz k).
    { rewrite <- qz_mult. f_equal. lia. }
    generalize dependent (v / qz step). intros q ->.
    rewrite E360 in Hv2. clear E360.
    apply rnd_between; [exact rnd_0|exact Hdk|..]; qc2q; nra. }
  generalize dependent (fdiv rnd v (qz step)). intros q [Hq1 Hq2].
  destruct (qfloor_spec q) as [Hf1 Hf2].
  assert (Hlo : (0 <= qfloor q)%Z).
  { assert (H : qz 0 < qz (qfloor q + 1))
      by (eapply Qcle_lt_trans; [exact Hq1|exact Hf2]).
    apply (proj1 (qz_lt _ _)) in H. lia. }
  assert (Hhi : (qfloor q <= k)%Z).
  { apply (proj1 (qz_le _ _)). eapply Qcle_trans; [exact Hf1|exact Hq2]. }
  nia.
Qed.

(** *** The timer *)

Lemma VerticalTimer_update_progress (t : VerticalTimer) (dt : Qc) :
  0 < bar_height t -> 0 <= progress t -> 0 <= perSecond t -> 0 <= dt ->
  let t' := (VerticalTimer_update rnd t dt).1 in
  bar_height t' = bar_height t /\ perSecond t' = perSecond t /\
  0 <= progress t' /\ progress t' <= bar_height t' /\
  (restarted t' = true -> progress t' < bar_height t').
Proof.
  intros Hh Hp Hs Hdt. cbn.
  set (p1 := fadd rnd (progress t) (fmul rnd (perSecond t) dt)).
  assert (Hp1 : 0 <= p1).
  { unfold p1, fadd, fmul. apply rnd_nonneg.
    assert (H : 0 <= rnd (perSecond t * dt)).
    { apply rnd_nonneg. qc2q. nra. }
    generalize dependent (rnd (perSecond t * dt)). intros r Hr.
    qc2q. lra. }
  clearbody p1. split; [done|]. split; [done|].
  case_bool_decide as Hover.
  - destruct (float_rem_nonneg p1 (bar_height t) Hp1 Hh) as (_ & H1 & H2).
    split; [done|]. split; [|done]. qc2q. lra.
  - split; [done|]. split; [|done]. qc2q. lra.
Qed.

(** Once the warning has been played it is not played again before the
    timer restarts. *)
Lemma VerticalTimer_trace_silent (t : VerticalTimer) (dts : list Qc) :
  warnSoundPlayed t = true ->
  Forall (fun r => restarted r.1 = false) (VerticalTimer_trace rnd t dts) ->
  Forall (fun r => r.2 = false) (VerticalTimer_trace rnd t dts).
Proof.
  revert t. induction dts as [|dt rest IH]; intros t Hplayed Hno;
    cbn [VerticalTimer_trace] in *; [constructor|].
  apply Forall_cons in Hno as [Hno1 Hno2].
  assert (Hover : bool_decide
                    (bar_height t
                     < fadd rnd (progress t) (fmul rnd (perSecond t) dt))
                  = false) by exact Hno1.
  assert (Hw : (VerticalTimer_update rnd t dt).2 = false).
  { cbn. rewrite Hover, Hplayed. apply andb_false_r. }
  apply Forall_cons. split; [exact Hw|].
  apply IH; [|exact Hno2].
  cbn. rewrite Hover, Hplayed. apply orb_true_r.
Qed.

Lemma VerticalTimer_trace_progress (t : VerticalTimer) (dts : list Qc) :
  0 < bar_height t -> 0 <= progress t -> 0 <= perSecond t ->
  Forall (fun dt => 0 <= dt) dts ->
  Forall (fun r => 0 <= progress r.1 /\ progress r.1 <= bar_height r.1 /\
                   (restarted r.1 = true -> progress r.1 < bar_height r.1))
         (VerticalTimer_trace rnd t dts).
Proof.
  intros Hh Hp0 Hs Hdts.
  - revert t Hh Hp0 Hs.
    induction Hdts as [|dt rest Hdt Hrest IH]; intros t Hh Hp0 Hs;
      cbn [VerticalTimer_trace]; [constructor|].
    destruct (VerticalTimer_update_progress t dt Hh Hp0 Hs Hdt)
      as (E1 & E2 & H1 & H2 & H3).
    apply Forall_cons. split; [done|].
    apply IH; [by rewrite E1|done|by rewrite E2].
Qed.

Lemma VerticalTimer_trace_warning (t : VerticalTimer) (dts : list Qc) :
  Forall (fun r => restarted r.1 = false) (VerticalTimer_trace rnd t dts) ->
  (length (filter (fun r => r.2 = true) (VerticalTimer_trace rnd t dts))
   <= 1)%nat.
Proof.
  revert t.
  - induction dts as [|dt rest IH]; intros t Hno;
      cbn [VerticalTimer_trace] in *; [cbn; lia|].
    apply Forall_cons in Hno as [Hno1 Hno2].
    rewrite filter_cons.
    destruct (decide ((VerticalTimer_update rnd t dt).2 = true)) as [Hw|Hw].
    + assert (Hplayed :
                warnSoundPlayed (VerticalTimer_update rnd t dt).1 = true).
      { cbn in Hw |- *. by rewrite Hw. }
      pose proof (VerticalTimer_trace_silent _ rest Hplayed Hno2) as Hsil.
      assert (E : filter (fun r : VerticalTimer * bool => r.2 = true)
                    (VerticalTimer_trace rnd
                       (VerticalTimer_update rnd t dt).1 rest) = []).
      { generalize dependent
          (VerticalTimer_trace rnd (VerticalTimer_update rnd t dt).1 rest).
        intros l _ Hsil. induction Hsil as [|r l Hr Hl IHl]; [done|].
        rewrite filter_cons. destruct (decide (r.2 = true)); [congruence|].
        done. }
      rewrite E. cbn. lia.
    + by apply IH.
Qed.

End FloatProperties.

(** *** In binary64 *)

Lemma rnd64_amplitude (a : Z) :
  (0 <= a <= 2 ^ 50)%Z ->
  0 <= qz a /\ is_double rnd64 (qz a) /\ is_double rnd64 (- qz a) /\
  is_double rnd64 (qz 2 * qz a) /\ is_double rnd64 (qz 4 * qz a).
Proof.
  intros Ha. split_and!.
  - change 0 with (qz 0). apply qz_le. lia.
  - apply rnd64_Z. lia.
  - rewrite <- qz_opp. apply rnd64_Z. lia.
  - rewrite <- qz_mult. apply rnd64_Z. lia.
  - rewrite <- qz_mult. apply rnd64_Z. lia.
Qed.

(** X14.  In binary64, [ctrlPos] stays between [-A] and [A]: for every
    integer amplitude from 0 to [2 ^ 50], every period other than 0, every
    shift and every time, as long as the quotient of time and period and
    the shift are moderate. *)
Theorem ctrlPos_within (a : Z) (T d x : Qc) :
  (0 <= a <= 2 ^ 50)%Z -> T <> 0 -> moderate (x / T) -> moderate d ->
  - qz a <= ctrlPos rnd64 (qz a) T d x /\
  ctrlPos rnd64 (qz a) T d x <= qz a.
Proof.
  intros Ha _ _ _.
  destruct rnd64_half as (H0 & H1 & Hh & Hnh).
  destruct (rnd64_amplitude a Ha) as (HA & HdA & HdnA & Hd2 & Hd4).
  by apply (ctrlPos_within_rounding rnd64 rnd64_monotone H0).
Qed.

(** X15.  In binary64, the control block of [gamePage] never leaves the
    square of side [2 * amp] around the tower, and each move starts from a
    corner of it: at period time 0 the block is at [(-amp, amp)] going
    forward and at [(amp, amp)] going back. *)
Theorem control_position_in_square (forward : bool) (amp : Z)
    (period pt : Qc) :
  (0 <= amp <= 2 ^ 50)%Z -> period <> 0 -> moderate (pt / period) ->
  (let '(x, y) := control_position rnd64 forward (qz amp) period pt in
   - qz amp <= x /\ x <= qz amp /\ - qz amp <= y /\ y <= qz amp) /\
  control_position rnd64 forward (qz amp) period 0
  = (if forward then - qz amp else qz amp, qz amp).
Proof.
  intros Ha _ _. unfold control_position.
  destruct rnd64_half as (H0 & H1 & Hh & Hnh).
  destruct (rnd64_amplitude amp Ha) as (HA & HdA & HdnA & Hd2 & Hd4).
  pose proof (ctrlPos_within_rounding rnd64 rnd64_monotone H0 (qz amp) period
                0 pt H1 Hh Hnh HA HdA HdnA Hd2 Hd4) as [Ha1 Ha2].
  pose proof (ctrlPos_within_rounding rnd64 rnd64_monotone H0 (qz amp) period
                (- half) pt H1 Hh Hnh HA HdA HdnA Hd2 Hd4) as [Hb1 Hb2].
  destruct (ctrlPos_start rnd64 H0 (qz amp) period Hh Hnh HdA HdnA Hd2 Hd4)
    as [E1 E2].
  rewrite E1, E2.
  destruct forward; (split; [cbv beta iota|reflexivity]);
    repeat split; assumption.
Qed.

(** X16.  In binary64, for a step that divides 360, [mouseTheta] is a
    multiple of the step between 0 and 360, whatever the offset and the
    cursor position.  Both ends are included: the remainder by 360 can
    round up to 360. *)
Theorem mouseTheta_range (step offset : Z) (invert : bool) (mouse_x : Z) :
  (0 < step)%Z -> (step | 360)%Z ->
  (Z.abs offset <= 2 ^ 31)%Z -> (Z.abs mouse_x <= 2 ^ 31)%Z ->
  let theta := mouseTheta rnd64 step offset invert mouse_x in
  (step | theta)%Z /\ (0 <= theta <= 360)%Z.
Proof.
  intros Hstep Hdiv _ _.
  destruct rnd64_half as (H0 & _).
  assert (Hle : (step <= 360)%Z) by (apply Z.divide_pos_le; [lia|done]).
  assert (Hq : (0 <= 360 / step <= 360)%Z).
  { split; [apply Z.div_pos; lia|].
    apply Z.div_le_upper_bound; [lia|]. nia. }
  apply (mouseTheta_range_rounding rnd64 rnd64_monotone H0); try done.
  - apply rnd64_Z. lia.
  - apply rnd64_Z. lia.
  - apply rnd64_Z. lia.
Qed.

(** X18.  In binary64, whatever the frame times, the progress of the timer
    stays between 0 and the height of the bar, strictly below it on the
    update that restarts; and in a stretch of updates without a restart
    the warning is played at most once. *)
Theorem VerticalTimer_progress_and_warning (t : VerticalTimer)
    (dts : list Qc) :
  0 < bar_height t -> bar_height t <= qz (2 ^ 31) ->
  0 <= progress t -> progress t <= bar_height t ->
  0 <= perSecond t -> perSecond t <= qz (2 ^ 31) ->
  Forall (fun dt => 0 <= dt /\ dt <= qz (2 ^ 31)) dts ->
  let trace := VerticalTimer_trace rnd64 t dts in
  Forall (fun r => 0 <= progress r.1 /\ progress r.1 <= bar_height r.1 /\
                   (restarted r.1 = true -> progress r.1 < bar_height r.1))
         trace /\
  (Forall (fun r => restarted r.1 = false) trace ->
   (length (filter (fun r => r.2 = true) trace) <= 1)%nat).
Proof.
  intros Hh _ Hp0 _ Hs _ Hdts trace. subst trace.
  destruct rnd64_half as (H0 & _). split.
  - apply (VerticalTimer_trace_progress rnd64 rnd64_monotone H0); try done.
    eapply List.Forall_impl; [|exact Hdts]. by intros dt [H _].
  - apply VerticalTimer_trace_warning.
Qed.

(** X17.  After any number of [killLife] calls the number of lives is the
    initial number less the calls, but never below 0, and [update] blits
    exactly the initial number of icons: the remaining lives first, then
    the lost ones. *)
Theorem LifeManager_after_kills (lifeNum : Z) (k : nat) (pos : Z * Z)
    (rowHeight : Z) :
  (0 <= lifeNum)%Z ->
  let l := Nat.iter k killLife (LifeManager_init lifeNum) in
  lives_num l = Z.max (lifeNum - Z.of_nat k) 0 /\
  map fst (LifeManager_update pos rowHeight l) =
    repeat LifeSprite (Z.to_nat (lives_num l))
    ++ repeat DeathSprite (Z.to_nat (lifeNum - lives_num l)) /\
  length (LifeManager_update pos rowHeight l) = Z.to_nat lifeNum.
Proof.
  intros HN l.
  assert (Hl : lives_max l = lifeNum /\
               lives_num l = Z.max (lifeNum - Z.of_nat k) 0).
  { subst l. induction k as [|k IH].
    - cbn. split; [done|lia].
    - change (Nat.iter (S k) killLife (LifeManager_init lifeNum))
        with (killLife (Nat.iter k killLife (LifeManager_init lifeNum))).
      remember (Nat.iter k killLife (LifeManager_init lifeNum)) as x.
      destruct IH as [IH1 IH2]. unfold killLife. cbn [lives_max lives_num].
      split; [exact IH1|]. rewrite IH2. lia. }
  destruct Hl as [Hmax Hnum]. split; [done|].
  assert (Hcol : forall s n h p,
            map fst (blit_column s n h p).1 = repeat s n).
  { intros s n h. induction n as [|n IH]; intros p; [done|].
    cbn [blit_column]. specialize (IH (p.1, p.2 + (h + 20))%Z).
    destruct (blit_column s n h _) as [rest final]. cbn in *.
    by rewrite IH. }
  unfold LifeManager_update. rewrite Hmax.
  pose proof (Hcol LifeSprite (Z.to_nat (lives_num l)) rowHeight pos) as Ha.
  destruct (blit_column LifeSprite _ rowHeight pos) as [alive newPos].
  pose proof (Hcol DeathSprite (Z.to_nat (lifeNum - lives_num l))
                rowHeight newPos) as Hd.
  destruct (blit_column DeathSprite _ rowHeight newPos) as [dead final].
  cbn [fst] in Ha, Hd.
  assert (Hmap : map fst (alive ++ dead) =
                 repeat LifeSprite (Z.to_nat (lives_num l))
                 ++ repeat DeathSprite (Z.to_nat (lifeNum - lives_num l))).
  { by rewrite map_app, Ha, Hd. }
  split; [exact Hmap|].
  rewrite <- (length_map fst), Hmap, length_app, !repeat_length. lia.
Qed.

(** ** The further properties on concrete input *)

Lemma spacialTransform_planar_part_witness :
  planar_part shift_3_4 = planar_part shift_3_4_down /\
  spacialTransform ccw_shoelace unit_square shift_3_4
  = spacialTransform ccw_shoelace unit_square shift_3_4_down.
Proof.
  assert (H : planar_part shift_3_4 = planar_part shift_3_4_down)
    by reflexivity.
  split; [exact H|].
  exact (spacialTransform_planar_part ccw_shoelace unit_square
           shift_3_4 shift_3_4_down H).
Defined.

Lemma LevelSelector_locked_total_witness :
  (forall k, is_Some (template_scores !! k) ->
             is_Some (template_scores !! k)) /\
  is_Some (thresholds !! "pi") /\
  (exists locked,
     LevelSelector_locked (Scores template_scores) "pi" = Py.Ok locked)
  /\ is_Some (friendlyNames !! "pi")
  /\ (forall dep n, thresholds !! "pi" = Some (Needs dep n) ->
        is_Some (friendlyNames !! dep))
  /\ LevelSelector_locked (Scores template_scores) "pi"
     = Py.Ok (negb (bool_decide ("pi" = "square" \/ "pi" = "triangle"))).
Proof.
  assert (H1 : forall k, is_Some (template_scores !! k) ->
                         is_Some (template_scores !! k)) by (intros k H; exact H).
  assert (H2 : is_Some (thresholds !! "pi")) by (eexists; reflexivity).
  split; [exact H1|]. split; [exact H2|].
  exact (LevelSelector_locked_total template_scores "pi" H1 H2).
Defined.

Lemma LevelSelector_locked_monotone_witness :
  scores_le (<["square" := 5%Z]> template_scores)
            (<["square" := 9%Z]> template_scores) /\
  LevelSelector_locked (Scores (<["square" := 5%Z]> template_scores))
    "rectangle" = Py.Ok false /\
  LevelSelector_locked (Scores (<["square" := 9%Z]> template_scores))
    "rectangle" = Py.Ok false.
Proof.
  assert (H1 : scores_le (<["square" := 5%Z]> template_scores)
                         (<["square" := 9%Z]> template_scores)).
  { intros level s. destruct (decide (level = "square")) as [->|Hne].
    - rewrite !lookup_insert_eq. intros [= <-]. exists 9%Z. split; [done|lia].
    - rewrite !lookup_insert_ne by done. intros Hs. exists s. split; [done|lia]. }
  assert (H2 : LevelSelector_locked
                 (Scores (<["square" := 5%Z]> template_scores)) "rectangle"
               = Py.Ok false) by reflexivity.
  split; [exact H1|]. split; [exact H2|].
  exact (LevelSelector_locked_monotone _ _ "rectangle" H1 H2).
Defined.

Lemma record_score_max_witness :
  template_scores !! "square" = Some 0%Z /\
  exists scores',
    record_score (Scores template_scores) "square" 12
    = Py.Ok (bool_decide (0 < 12)%Z, Scores scores') /\
    scores' !! "square" = Some (Z.max 0 12) /\
    (forall other, other <> "square" ->
       scores' !! other = template_scores !! other) /\
    scores_le template_scores scores'.
Proof.
  assert (H : template_scores !! "square" = Some 0%Z) by reflexivity.
  split; [exact H|].
  exact (record_score_max template_scores "square" 0 12 H).
Defined.

Lemma LifeManager_after_kills_witness :
  (0 <= 3)%Z /\
  let l := Nat.iter 5 killLife (LifeManager_init 3) in
  lives_num l = Z.max (3 - Z.of_nat 5) 0 /\
  map fst (LifeManager_update (790, 260)%Z 40 l) =
    repeat LifeSprite (Z.to_nat (lives_num l))
    ++ repeat DeathSprite (Z.to_nat (3 - lives_num l)) /\
  length (LifeManager_update (790, 260)%Z 40 l) = Z.to_nat 3.
Proof.
  assert (H : (0 <= 3)%Z) by lia.
  split; [exact H|].
  exact (LifeManager_after_kills 3 5 (790, 260)%Z 40 H).
Defined.

Lemma gamePage_run_invariant_witness :
  let start :=
    gamePage_start rnd64
      (extrude ccw_shoelace hull_of_empty both_empty unit_square 1) 300 in
  exists g',
    gamePage_run ccw_shoelace (overlay_giving (GPolygon unit_square))
      hull_of_empty both_empty rnd64 start
      [idle_input; click_input; idle_input; click_input] = Ok g' /\
    (length (g_tower g') <= 8)%nat /\
    (length (frame_tower g') <= 7)%nat /\
    (0 <= g_colIndex g' < Z.of_nat (length blockColors))%Z /\
    (0 <= lives_num (g_lives g') <= 3)%Z.
Proof.
  intros start.
  destruct (gamePage_run ccw_shoelace (overlay_giving (GPolygon unit_square))
              hull_of_empty both_empty rnd64 start
              [idle_input; click_input; idle_input; click_input])
    as [g'|e] eqn:E; [|vm_compute in E; discriminate E].
  exists g'. split; [reflexivity|].
  exact (gamePage_run_invariant ccw_shoelace
           (overlay_giving (GPolygon unit_square)) hull_of_empty both_empty
           rnd64 _ 300 _ g' E).
Defined.

Lemma gamePage_miss_ends_round_witness :
  let start :=
    gamePage_start rnd64
      (extrude ccw_shoelace hull_of_empty both_empty unit_square 1) 300 in
  exists g',
    gamePage_frame ccw_shoelace (overlay_giving (GPoint (Some (pt 1 1))))
      hull_of_empty both_empty rnd64 start click_input = Ok g' /\
    vertices (g_control g') = [] /\
    g_gameover g' = true /\
    g_score g' = g_score start.
Proof.
  intros start.
  destruct (spacialTransform ccw_shoelace (click_base_polygon start)
              (click_base_matrix start click_input))
    as [newBase|e] eqn:Eb; [|vm_compute in Eb; discriminate Eb].
  destruct (spacialTransform ccw_shoelace (polygon (g_control start))
              (f_controlMat click_input))
    as [newControl|e] eqn:Ec; [|vm_compute in Ec; discriminate Ec].
  exact (gamePage_miss_ends_round ccw_shoelace
           (overlay_giving (GPoint (Some (pt 1 1)))) hull_of_empty both_empty
           rnd64 start click_input newBase newControl
           (GPoint (Some (pt 1 1)))
           eq_refl Eb Ec eq_refl eq_refl).
Defined.

Lemma gamePage_hit_scores_witness :
  let start :=
    gamePage_start rnd64
      (extrude ccw_shoelace hull_of_empty both_empty unit_square 1) 300 in
  exists g',
    gamePage_frame ccw_shoelace (overlay_giving (GPolygon unit_square))
      hull_of_empty both_empty rnd64 start click_input = Ok g' /\
    g_gameover g' = false /\
    g_score g' = (g_score start + 1)%Z /\
    g_control g'
    = extrude ccw_shoelace hull_of_empty both_empty unit_square 1 /\
    g_tower g'
    = frame_tower start
      ++ [extrude ccw_shoelace hull_of_empty both_empty unit_square 1].
Proof.
  intros start.
  destruct (spacialTransform ccw_shoelace (click_base_polygon start)
              (click_base_matrix start click_input))
    as [newBase|e] eqn:Eb; [|vm_compute in Eb; discriminate Eb].
  destruct (spacialTransform ccw_shoelace (polygon (g_control start))
              (f_controlMat click_input))
    as [newControl|e] eqn:Ec; [|vm_compute in Ec; discriminate Ec].
  assert (Hl : lives_num (g_lives start) <> 0%Z) by (cbn; lia).
  assert (Hn : (3 <= length (exterior unit_square))%nat) by (simpl; lia).
  exact (gamePage_hit_scores ccw_shoelace
           (overlay_giving (GPolygon unit_square)) hull_of_empty both_empty
           rnd64 start click_input newBase newControl unit_square
           eq_refl eq_refl Hl Eb Ec eq_refl Hn).
Defined.


(** *** Binary64 on concrete input *)

(** 0.017 and 0.016 as Python reads them. *)
Example ctrlPos_binary64_not_mirrored :
  ctrlPos rnd64 (qz 4) (Q2Qc (7 # 2)) (- half) (rnd64 (Q2Qc (17 # 1000)))
  <> - ctrlPos rnd64 (qz 4) (Q2Qc (7 # 2)) 0 (rnd64 (Q2Qc (17 # 1000))).
Proof. intros H. apply (f_equal this) in H. vm_compute in H. discriminate H. Qed.

Example ctrlPos_binary64_not_periodic :
  ctrlPos rnd64 (qz 4) (Q2Qc (7 # 2)) 0
    (fadd rnd64 (rnd64 (Q2Qc (16 # 1000))) (Q2Qc (7 # 2)))
  <> ctrlPos rnd64 (qz 4) (Q2Qc (7 # 2)) 0 (rnd64 (Q2Qc (16 # 1000))).
Proof. intros H. apply (f_equal this) in H. vm_compute in H. discriminate H. Qed.

Example mouseTheta_mid_screen : mouseTheta rnd64 5 0 false 480 = 180%Z.
Proof. vm_compute. reflexivity. Qed.

Example mouseTheta_inverted : mouseTheta rnd64 5 0 true 100 = 320%Z.
Proof. vm_compute. reflexivity. Qed.

(** The remainder by 360 of a sum just below 0 is 360 itself. *)
Example mouseTheta_binary64_reaches_360 :
  mouse_angle rnd64 (-252) false 672 = qz 360 /\
  mouseTheta rnd64 5 (-252) false 672 = 360%Z.
Proof. split; [apply Qc_is_canon|]; vm_compute; reflexivity. Qed.

(** A timer of 6 seconds on a bar 13 pixels tall restarts on the twelfth
    update of half a second, when exactly 6 seconds have passed. *)
Example VerticalTimer_binary64_restart :
  map (fun r => restarted r.1)
      (VerticalTimer_trace rnd64 (VerticalTimer_init rnd64 13 6)
         (repeat half 12))
  = repeat false 11 ++ [true].
Proof. vm_compute. reflexivity. Qed.

Lemma ctrlPos_within_witness :
  - qz 4 <= ctrlPos rnd64 (qz 4) (Q2Qc (7 # 2)) (- half)
              (rnd64 (Q2Qc (17 # 1000))) /\
  ctrlPos rnd64 (qz 4) (Q2Qc (7 # 2)) (- half) (rnd64 (Q2Qc (17 # 1000)))
  <= qz 4.
Proof.
  assert (Ha : (0 <= 4 <= 2 ^ 50)%Z) by lia.
  assert (HT : Q2Qc (7 # 2) <> 0).
  { intros H. apply (f_equal this) in H. vm_compute in H. discriminate H. }
  assert (Hx : moderate (rnd64 (Q2Qc (17 # 1000)) / Q2Qc (7 # 2)))
    by (vm_compute; discriminate).
  assert (Hd : moderate (- half)) by (vm_compute; discriminate).
  exact (ctrlPos_within 4 (Q2Qc (7 # 2)) (- half)
           (rnd64 (Q2Qc (17 # 1000))) Ha HT Hx Hd).
Defined.

Lemma control_position_in_square_witness :
  (let '(x, y) := control_position rnd64 true (qz 4) (Q2Qc (7 # 2))
                    (rnd64 (Q2Qc (17 # 1000))) in
   - qz 4 <= x /\ x <= qz 4 /\ - qz 4 <= y /\ y <= qz 4) /\
  control_position rnd64 true (qz 4) (Q2Qc (7 # 2)) 0 = (- qz 4, qz 4).
Proof.
  assert (Ha : (0 <= 4 <= 2 ^ 50)%Z) by lia.
  assert (HT : Q2Qc (7 # 2) <> 0).
  { intros H. apply (f_equal this) in H. vm_compute in H. discriminate H. }
  assert (Hx : moderate (rnd64 (Q2Qc (17 # 1000)) / Q2Qc (7 # 2)))
    by (vm_compute; discriminate).
  exact (control_position_in_square true 4 (Q2Qc (7 # 2))
           (rnd64 (Q2Qc (17 # 1000))) Ha HT Hx).
Defined.

Lemma mouseTheta_range_witness :
  let theta := mouseTheta rnd64 5 (-252) false 672 in
  (5 | theta)%Z /\ (0 <= theta <= 360)%Z.
Proof.
  assert (Hs : (0 < 5)%Z) by lia.
  assert (Hd : (5 | 360)%Z) by (exists 72%Z; reflexivity).
  assert (Ho : (Z.abs (-252) <= 2 ^ 31)%Z) by (vm_compute; discriminate).
  assert (Hm : (Z.abs 672 <= 2 ^ 31)%Z) by (vm_compute; discriminate).
  exact (mouseTheta_range 5 (-252) false 672 Hs Hd Ho Hm).
Defined.

Lemma VerticalTimer_progress_and_warning_witness :
  let trace :=
    VerticalTimer_trace rnd64 (VerticalTimer_init rnd64 13 6)
      (repeat half 12) in
  Forall (fun r => 0 <= progress r.1 /\ progress r.1 <= bar_height r.1 /\
                   (restarted r.1 = true -> progress r.1 < bar_height r.1))
         trace /\
  (Forall (fun r => restarted r.1 = false) trace ->
   (length (filter (fun r => r.2 = true) trace) <= 1)%nat).
Proof.
  assert (Hh : 0 < bar_height (VerticalTimer_init rnd64 13 6))
    by (vm_compute; reflexivity).
  assert (Hh' : bar_height (VerticalTimer_init rnd64 13 6) <= qz (2 ^ 31))
    by (vm_compute; discriminate).
  assert (Hp : 0 <= progress (VerticalTimer_init rnd64 13 6))
    by (vm_compute; discriminate).
  assert (Hp' : progress (VerticalTimer_init rnd64 13 6)
                <= bar_height (VerticalTimer_init rnd64 13 6))
    by (vm_compute; discriminate).
  assert (Hs : 0 <= perSecond (VerticalTimer_init rnd64 13 6))
    by (vm_compute; discriminate).
  assert (Hs' : perSecond (VerticalTimer_init rnd64 13 6) <= qz (2 ^ 31))
    by (vm_compute; discriminate).
  assert (Hd : Forall (fun dt => 0 <= dt /\ dt <= qz (2 ^ 31))
                 (repeat half 12)).
  { repeat constructor; vm_compute; discriminate. }
  exact (VerticalTimer_progress_and_warning
           (VerticalTimer_init rnd64 13 6) (repeat half 12)
           Hh Hh' Hp Hp' Hs Hs' Hd).
Defined.
